(** * kubectl plugins: naming transform, environment providers, runner, binder

    A shallow embedding of
      - pkg/kubectl/plugins/helpers.go  (FlagToEnvName, FieldToEnvName, ...),
      - pkg/kubectl/plugins/runner.go   (RunningEnvProvider and its
        implementations, ExecPluginRunner.Run),
      - pkg/kubectl/cmd/plugin.go       (NewCmdForPlugin and the providers
        declared next to it),
    followed by the properties of the design document that concern them.

    Go strings are modelled as [string] (sequences of bytes).  The case
    functions of package [strings] and the character classes of package
    [unicode] are modelled on the ASCII range; a byte outside it is left
    unchanged by [strings_ToUpper] and belongs to no letter or digit class. *)

From Stdlib Require Import Strings.String Strings.Ascii Lists.List Bool.Bool
  Arith.PeanoNat ZArith.ZArith micromega.Lia Numbers.DecimalString.
Import ListNotations.
Local Open Scope string_scope.
Local Open Scope list_scope.

Set Implicit Arguments.

(* ================================================================== *)
(** ** Package [strings], [unicode] and [fmt]: the functions the code calls *)
(* ================================================================== *)

Module GoStrings.

(** [unicode.IsLower], [unicode.IsUpper], [unicode.IsDigit] on a byte. *)
Definition IsLower (c : ascii) : bool :=
  Nat.leb 97 (nat_of_ascii c) && Nat.leb (nat_of_ascii c) 122.

Definition IsUpper (c : ascii) : bool :=
  Nat.leb 65 (nat_of_ascii c) && Nat.leb (nat_of_ascii c) 90.

Definition IsDigit (c : ascii) : bool :=
  Nat.leb 48 (nat_of_ascii c) && Nat.leb (nat_of_ascii c) 57.

Definition upper_byte (c : ascii) : ascii :=
  if IsLower c then ascii_of_nat (nat_of_ascii c - 32) else c.

Fixpoint map_bytes (f : ascii -> ascii) (s : string) : string :=
  match s with
  | EmptyString => EmptyString
  | String c t => String (f c) (map_bytes f t)
  end.

Fixpoint all_bytes (p : ascii -> bool) (s : string) : bool :=
  match s with
  | EmptyString => true
  | String c t => p c && all_bytes p t
  end.

Fixpoint has_byte (c : ascii) (s : string) : bool :=
  match s with
  | EmptyString => false
  | String d t => Ascii.eqb d c || has_byte c t
  end.

Definition nonempty (s : string) : bool :=
  match s with EmptyString => false | _ => true end.

(** [strings.ToUpper(s)]. *)
Definition strings_ToUpper (s : string) : string := map_bytes upper_byte s.

(** The slice [s[n:]]. *)
Fixpoint drop (n : nat) (s : string) : string :=
  match n, s with
  | O, _ => s
  | S _, EmptyString => EmptyString
  | S m, String _ t => drop m t
  end.

(** [strings.TrimPrefix(s, prefix)]:
    [if HasPrefix(s, prefix) { return s[len(prefix):] }; return s]. *)
Definition strings_TrimPrefix (s pre : string) : string :=
  if String.prefix pre s then drop (String.length pre) s else s.

(** [strings.Replace(s, old, new, -1)] where [old] and [new] are one
    byte long, which is how helpers.go calls it: every occurrence of the
    byte is replaced. *)
Definition strings_Replace (s : string) (old new : ascii) : string :=
  map_bytes (fun c => if Ascii.eqb c old then new else c) s.

(** [strings.Split(s, sep)] at a one-byte separator, which is how the
    code calls it ("." and " "): the pieces between the separators, one
    more than there are separators, empty pieces included. *)
Fixpoint strings_Split (s : string) (sep : ascii) : list string :=
  match s with
  | EmptyString => [EmptyString]
  | String c t =>
      if Ascii.eqb c sep then EmptyString :: strings_Split t sep
      else match strings_Split t sep with
           | [] => [String c EmptyString]
           | w :: ws => String c w :: ws
           end
  end.

(** [strings.Join(a, sep)]. *)
Definition strings_Join (a : list string) (sep : string) : string :=
  String.concat sep a.

(** [fmt.Sprintf("%s=%s", k, v)]. *)
Definition Sprintf_eq (k v : string) : string := k ++ "=" ++ v.

End GoStrings.
Import GoStrings.

(* ================================================================== *)
(** ** Package [camelcase] *)
(* ================================================================== *)

Module camelcase.

(** The class the splitter gives a character:
    1 lower case, 2 upper case, 3 digit, 4 anything else. *)
Definition class_of (r : ascii) : nat :=
  if IsLower r then 1
  else if IsUpper r then 2
  else if IsDigit r then 3
  else 4.

(** [runes[len(runes)-1] = append(runes[len(runes)-1], r)]. *)
Fixpoint append_to_last (runes : list string) (r : ascii) : list string :=
  match runes with
  | [] => []
  | [w] => [(w ++ String r EmptyString)%string]
  | w :: ws => w :: append_to_last ws r
  end.

(** First pass: one field per maximal run of characters of one class. *)
Fixpoint split_classes (src : string) (runes : list string) (lastClass : nat)
  : list string :=
  match src with
  | EmptyString => runes
  | String r t =>
      let class := class_of r in
      let runes' :=
        if Nat.eqb class lastClass then append_to_last runes r
        else runes ++ [String r EmptyString] in
      split_classes t runes' class
  end.

Definition first_byte (p : ascii -> bool) (s : string) : bool :=
  match s with
  | EmptyString => false
  | String c _ => p c
  end.

Fixpoint last_byte (s : string) : string :=
  match s with
  | EmptyString => EmptyString
  | String c EmptyString => String c EmptyString
  | String _ t => last_byte t
  end.

Fixpoint but_last (s : string) : string :=
  match s with
  | EmptyString => EmptyString
  | String _ EmptyString => EmptyString
  | String c t => String c (but_last t)
  end.

(** Second pass: where an upper-case field is followed by a lower-case
    one, the last upper-case letter starts the word that follows
    ("PDFL", "oader" becomes "PDF", "Loader").  [cur] is [runes[i]] as the
    step before left it, [rest] is [runes[i+1:]]. *)
Fixpoint upper_to_lower (cur : string) (rest : list string) : list string :=
  match rest with
  | [] => [cur]
  | next :: rest' =>
      if first_byte IsUpper cur && first_byte IsLower next
      then but_last cur :: upper_to_lower (last_byte cur ++ next)%string rest'
      else cur :: upper_to_lower next rest'
  end.

(** Modelled from the spec: [camelcase.Split], of the vendored package
    github.com/fatih/camelcase that helpers.go imports, is not among the
    sources.  The design document has each path segment "decomposed into
    word boundaries (transitions between lowercase/uppercase/digit runs)",
    with a sequence of upper-case letters kept together and "APIPath"
    yielding API and Path; this is the package's algorithm: runs of one
    character class, the last capital of a run moved to the lower-case
    word it starts, empty fields dropped.  (The package leaves a source
    that is not valid UTF-8 unsplit; an ASCII source is always valid.) *)
Definition Split (src : string) : list string :=
  let runes := split_classes src [] 0 in
  let runes :=
    match runes with
    | [] => []
    | r :: rs => upper_to_lower r rs
    end in
  filter nonempty runes.

End camelcase.

(* ================================================================== *)
(** ** The collaborators outside the repository's packages *)
(* ================================================================== *)

(** A Go [error] value, identified by its message. *)
Definition error : Type := string.

Module pflag.

(** A [*pflag.Flag], as far as the code reads it: its name and the text
    of its value ([flag.Value.String()]). *)
Record Flag : Type := mkFlag {
  Name : string;
  Value_String : string
}.

End pflag.

Module io.

(** [io.Reader] and [io.Writer] values are handed on, never used by the
    code itself: a stream is a handle. *)
Definition Reader : Type := nat.
Definition Writer : Type := nat.

End io.

Module exec.

(** [exec.Cmd], with the fields the runner sets. *)
Record Cmd : Type := mkCmd {
  Path : string;
  Args : list string;
  Env : list string;
  Dir : string;
  Stdin : io.Reader;
  Stdout : io.Writer;
  Stderr : io.Writer
}.

(** [exec.Command(name, arg...)]: the command [name] with the argument
    vector [name, arg...].  (The search of a bare [name] along PATH is
    part of starting the process.) *)
Definition Command (name : string) (arg : list string) : Cmd :=
  {| Path := name; Args := name :: arg; Env := []; Dir := "";
     Stdin := 0; Stdout := 0; Stderr := 0 |}.

End exec.

(** What the command handed to a [Run] closure ([cmd *cobra.Command])
    shows to the code: its name and its flags, in the order
    [cmd.Flags().VisitAll] visits them. *)
Record CommandRef : Type := mkCommandRef {
  ref_Use : string;
  ref_Flags : list pflag.Flag
}.

(** What the program does to the world outside it. *)
Inductive Event : Type :=
| EvRun (c : exec.Cmd)
    (** [c.Run()]: the child process is started and waited for *).

(** The process and what surrounds it. *)
Record World : Type := mkWorld {
  executable : string * option error;   (** what [os.Executable()] returns *)
  environ : list (string * string);     (** the environment of the process *)
  child_result : exec.Cmd -> option error;
                                        (** what [Run] of a command returns:
                                            nil, or why it did not start or
                                            how it failed *)
  trace : list Event                    (** what was done so far *)
}.

(** Code with effects: a function of the world. *)
Definition IO (A : Type) : Type := World -> A * World.

Definition ret {A : Type} (a : A) : IO A := fun w => (a, w).

Definition bind {A B : Type} (m : IO A) (k : A -> IO B) : IO B :=
  fun w => let (a, w') := m w in k a w'.

Declare Scope io_scope.
Delimit Scope io_scope with io.
Notation "x <- m ;; k" := (bind m (fun x => k))
  (at level 61, m at next level, right associativity) : io_scope.
Notation "' pat <- m ;; k" := (bind m (fun x => match x with pat => k end))
  (at level 61, pat pattern, m at next level, right associativity) : io_scope.
Local Open Scope io_scope.

Definition emit (e : Event) : IO unit :=
  fun w => (tt, {| executable := executable w; environ := environ w;
                   child_result := child_result w;
                   trace := trace w ++ [e] |}).

(** [c.Run()] of package [os/exec]. *)
Definition exec_Run (c : exec.Cmd) : IO (option error) :=
  _ <- emit (EvRun c) ;;
  fun w => (child_result w c, w).

Module os.

Definition Executable : IO (string * option error) :=
  fun w => (executable w, w).

Definition Environ : IO (list string) :=
  fun w => (map (fun kv => Sprintf_eq (fst kv) (snd kv)) (environ w), w).

(** [os.Getenv(key)]: the value of the first entry for [key], the empty
    string when there is none. *)
Fixpoint lookup (key : string) (env : list (string * string)) : string :=
  match env with
  | [] => ""
  | (k, v) :: rest => if String.eqb k key then v else lookup key rest
  end.

Definition isShellSpecialVar (c : ascii) : bool :=
  existsb (Ascii.eqb c)
    ["*"; "#"; "$"; "@"; "!"; "?"; "-";
     "0"; "1"; "2"; "3"; "4"; "5"; "6"; "7"; "8"; "9"]%char.

Definition isAlphaNum (c : ascii) : bool :=
  Ascii.eqb c "_" || IsDigit c || IsLower c || IsUpper c.

(** The index of the first ["}"] of [s], counted from [i]. *)
Fixpoint closing_brace (s : string) (i : nat) : option nat :=
  match s with
  | EmptyString => None
  | String c t => if Ascii.eqb c "}" then Some i else closing_brace t (S i)
  end.

Fixpoint alphanumerics (s : string) : nat :=
  match s with
  | EmptyString => 0
  | String c t => if isAlphaNum c then S (alphanumerics t) else 0
  end.

(** [getShellName(s)], [s] being what follows a ["$"]: the name of the
    variable and how many bytes of [s] it takes. *)
Definition getShellName (s : string) : string * nat :=
  match s with
  | EmptyString => ("", 0)
  | String "{" t =>
      let scan :=
        match closing_brace t 1 with
        | Some 1 => ("", 2)
        | Some i => (String.substring 1 (i - 1) s, i + 1)
        | None => ("", 1)
        end in
      match t with
      | String c (String "}" _) =>
          if isShellSpecialVar c then (String c "", 3) else scan
      | _ => scan
      end
  | String c _ =>
      if isShellSpecialVar c then (String c "", 1)
      else let i := alphanumerics s in (String.substring 0 i s, i)
  end.

(** [os.Expand(s, mapping)] of the Go standard library: [$name] and
    [${name}] are replaced by [mapping(name)]; a reference that is not
    well formed is dropped, and a ["$"] that no name follows stays.
    [skip] bytes of [s] belong to a reference that was just replaced. *)
Fixpoint Expand_skip (skip : nat) (s : string) (mapping : string -> string)
  : string :=
  match s with
  | EmptyString => EmptyString
  | String c t =>
      match skip with
      | S k => Expand_skip k t mapping
      | O =>
          if Ascii.eqb c "$" && nonempty t
          then
            let (name, w) := getShellName t in
            let out :=
              if String.eqb name "" && Nat.ltb 0 w then ""
              else if String.eqb name "" then "$"
              else mapping name in
            (out ++ Expand_skip w t mapping)%string
          else String c (Expand_skip 0 t mapping)
      end
  end.

Definition Expand (s : string) (mapping : string -> string) : string :=
  Expand_skip 0 s mapping.

(** [os.ExpandEnv(s)]: [Expand(s, Getenv)], on the environment of the
    running process. *)
Definition ExpandEnv (s : string) : IO string :=
  fun w => (Expand s (fun key => lookup key (environ w)), w).

End os.

(* ================================================================== *)
(** ** Package [plugins]: helpers.go and runner.go *)
(* ================================================================== *)

Module plugins.

(** *** helpers.go *)

Definition FlagToEnvName (flagName prefix : string) : string :=
  let envName := strings_TrimPrefix flagName "--" in
  let envName := strings_ToUpper envName in
  let envName := strings_Replace envName "-" "_" in
  let envName := (prefix ++ envName)%string in
  envName.

Definition FlagToEnv (flag : pflag.Flag) (prefix : string) : string :=
  let envName := FlagToEnvName (pflag.Name flag) prefix in
  Sprintf_eq envName (pflag.Value_String flag).

Definition FieldToEnvName (fieldName prefix : string) : string :=
  let parts :=
    map (fun s =>
           let split := camelcase.Split s in
           let envPart := strings_Join split "_" in
           strings_ToUpper envPart)
        (strings_Split fieldName ".") in
  (prefix ++ strings_Join parts "_")%string.

Definition FieldToEnv (fieldName fieldValue prefix : string) : string :=
  let envName := FieldToEnvName fieldName prefix in
  Sprintf_eq envName fieldValue.

(** *** The plugin descriptor *)

(** Modelled from the spec: the declaration of [Plugin] (plugins.go) is
    not among the sources.  The fields are those runner.go and plugin.go
    read, which are those of the design document's PluginDescriptor:
    name, short summary, long help, example, invocation template,
    children, source directory. *)
#[warnings="-register-all"]
Inductive Plugin : Type := mkPlugin {
  Name : string;
  ShortDesc : string;
  LongDesc : string;
  Example : string;
  Command : string;
  Tree : list Plugin;
  Dir : string
}.

(** Modelled from the spec: [Plugin.IsValid] (plugins.go) is not among
    the sources.  "a descriptor is valid iff name is non-empty". *)
Definition IsValid (p : Plugin) : bool := negb (String.eqb (Name p) "").

(** *** runner.go *)

(** The interface [RunningEnvProvider]: [Env() ([]string, error)]. *)
Class RunningEnvProvider (T : Type) : Type :=
  Env : T -> IO (list string * option error).

(** A value of the interface type: what its [Env] method does. *)
Record EnvProviderValue : Type := mkEnvProviderValue {
  call_Env : IO (list string * option error)
}.

#[export] Instance EnvProviderValue_provider
  : RunningEnvProvider EnvProviderValue := call_Env.

(** The conversion of a provider to the interface type. *)
Definition iface {T : Type} `{RunningEnvProvider T} (p : T)
  : EnvProviderValue :=
  {| call_Env := Env p |}.

Record RunningContext : Type := mkRunningContext {
  In : io.Reader;
  Out : io.Writer;
  ErrOut : io.Writer;
  Args : list string;
  EnvProvider : EnvProviderValue;
  WorkingDir : string
}.

(** The interface [PluginRunner]. *)
Class PluginRunner (R : Type) : Type :=
  Run : R -> Plugin -> RunningContext -> IO (option error).

Inductive ExecPluginRunner : Type := mkExecPluginRunner.

(** [ExecPluginRunner.Run].  [command[0]] is written [hd ""]:
    [strings.Split] never returns an empty slice.  The [glog] line is
    left out. *)
Definition ExecPluginRunner_Run (r : ExecPluginRunner) (plugin : Plugin)
    (ctx : RunningContext) : IO (option error) :=
  expanded <- os.ExpandEnv (Command plugin) ;;
  let command := strings_Split expanded " " in
  let base := hd "" command in
  let args := [] in
  let args := if Nat.ltb 1 (length command) then tl command else args in
  let args := args ++ Args ctx in
  let cmd := exec.Command base args in
  let cmd :=
    {| exec.Path := exec.Path cmd; exec.Args := exec.Args cmd;
       exec.Env := exec.Env cmd; exec.Dir := exec.Dir cmd;
       exec.Stdin := In ctx; exec.Stdout := Out ctx;
       exec.Stderr := ErrOut ctx |} in
  '(env, err) <- Env (EnvProvider ctx) ;;
  match err with
  | Some e => ret (Some e)
  | None =>
      let cmd :=
        {| exec.Path := exec.Path cmd; exec.Args := exec.Args cmd;
           exec.Env := env; exec.Dir := WorkingDir ctx;
           exec.Stdin := exec.Stdin cmd; exec.Stdout := exec.Stdout cmd;
           exec.Stderr := exec.Stderr cmd |} in
      exec_Run cmd
  end.

#[export] Instance ExecPluginRunner_runner : PluginRunner ExecPluginRunner :=
  ExecPluginRunner_Run.

(** [MultiRunningEnvProvider] is a slice of providers;
    its [Env] returns on the first error. *)
Definition MultiRunningEnvProvider : Type := list EnvProviderValue.

Fixpoint Multi_loop (p : list EnvProviderValue) (env : list string)
  : IO (list string * option error) :=
  match p with
  | [] => ret (env, None)
  | provider :: rest =>
      '(pEnv, err) <- Env provider ;;
      match err with
      | Some e => ret ([], Some e)
      | None => Multi_loop rest (env ++ pEnv)
      end
  end.

#[export] Instance MultiRunningEnvProvider_provider
  : RunningEnvProvider MultiRunningEnvProvider :=
  fun p => Multi_loop p [].

Inductive PluginCallerEnvProvider : Type := mkPluginCallerEnvProvider.

#[export] Instance PluginCallerEnvProvider_provider
  : RunningEnvProvider PluginCallerEnvProvider :=
  fun _ =>
    '(caller, err) <- os.Executable ;;
    match err with
    | Some e => ret ([], Some e)
    | None => ret ([Sprintf_eq "KUBECTL_PLUGINS_CALLER" caller], None)
    end.

(** The field [Plugin *Plugin] may be nil. *)
Record PluginDescriptorEnvProvider : Type := mkPluginDescriptorEnvProvider {
  descriptor_Plugin : option Plugin
}.

#[export] Instance PluginDescriptorEnvProvider_provider
  : RunningEnvProvider PluginDescriptorEnvProvider :=
  fun p =>
    match descriptor_Plugin p with
    | None => ret ([], Some "plugin not present to extract env")
    | Some plugin =>
        let prefix := "KUBECTL_PLUGINS_DESCRIPTOR_" in
        let env := [] in
        let env := env ++ [FieldToEnv "Name" (Name plugin) prefix] in
        let env := env ++ [FieldToEnv "ShortDesc" (ShortDesc plugin) prefix] in
        let env := env ++ [FieldToEnv "LongDesc" (LongDesc plugin) prefix] in
        let env := env ++ [FieldToEnv "Example" (Example plugin) prefix] in
        let env := env ++ [FieldToEnv "Command" (Command plugin) prefix] in
        ret (env, None)
    end.

Inductive OSEnvProvider : Type := mkOSEnvProvider.

#[export] Instance OSEnvProvider_provider : RunningEnvProvider OSEnvProvider :=
  fun _ => env <- os.Environ ;; ret (env, None).

Inductive EmptyEnvProvider : Type := mkEmptyEnvProvider.

#[export] Instance EmptyEnvProvider_provider
  : RunningEnvProvider EmptyEnvProvider :=
  fun _ => ret ([], None).

End plugins.

(* ================================================================== *)
(** ** What package [cmd] imports *)
(* ================================================================== *)

Module restclient.

(** [restclient.Config], with the fields plugin.go reads. *)
Record ImpersonationConfig : Type := mkImpersonationConfig {
  UserName : string;
  Groups : list string
}.

Record Config : Type := mkConfig {
  Host : string;
  APIPath : string;
  Prefix : string;
  Username : string;
  Password : string;
  BearerToken : string;
  Impersonate : ImpersonationConfig;
  Insecure : bool;
  ServerName : string;
  CertFile : string;
  KeyFile : string;
  CAFile : string;
  CertData : string;
  KeyData : string;
  CAData : string;
  UserAgent : string;
  Timeout : Z      (** a [time.Duration]: nanoseconds *)
}.

End restclient.

Module strconv.

Definition FormatBool (b : bool) : string := if b then "true" else "false".

(** [strconv.FormatInt(i, 10)]. *)
Definition FormatInt (i : Z) : string := NilZero.string_of_int (Z.to_int i).

End strconv.

Module cmdutil.

(** How a [Run] closure of a command ends: it returns, or the process is
    ended by [cmdutil.CheckErr] on an error. *)
Inductive Outcome : Type :=
| Returned
| Exited (err : error).

(** [cmdutil.CheckErr(err)] followed by [k]: on an error the process is
    ended, and [k] is not run. *)
Definition CheckErr (err : option error) (k : IO Outcome) : IO Outcome :=
  match err with
  | Some e => ret (Exited e)
  | None => k
  end.

(** The interface [cmdutil.Factory], with the methods plugin.go calls on
    it in a [Run] closure. *)
Record Factory : Type := mkFactory {
  ClientConfig : restclient.Config * option error;
  DefaultNamespace : string * bool * option error
}.

End cmdutil.

Module cobra.

(** [cobra.Command], with the fields plugin.go sets and the subcommands
    [AddCommand] gives it. *)
#[warnings="-register-all"]
Inductive Command : Type := mkCommand {
  Use : string;
  Short : string;
  Long : string;
  Example : string;
  Run : CommandRef -> list string -> IO cmdutil.Outcome;
  commands : list Command
}.

(** A call that returns, or panics. *)
Inductive may_panic (A : Type) : Type :=
| Panics
| Returns (a : A).
Arguments Panics {A}.

(** [c.AddCommand(x)].  cobra writes [x.parent = c] before it appends [x]
    to the subcommands of [c]: a nil [x] is a nil dereference. *)
Definition AddCommand (c : Command) (x : option Command) : may_panic Command :=
  match x with
  | None => Panics
  | Some x' =>
      Returns {| Use := Use c; Short := Short c; Long := Long c;
                 Example := Example c; Run := Run c;
                 commands := commands c ++ [x'] |}
  end.

End cobra.

(* ================================================================== *)
(** ** Package [cmd]: plugin.go *)
(* ================================================================== *)

Module cmd.

Import plugins.

Record flagsPluginEnvProvider : Type := mkFlagsPluginEnvProvider {
  flags_cmd : CommandRef
}.

#[export] Instance flagsPluginEnvProvider_provider
  : RunningEnvProvider flagsPluginEnvProvider :=
  fun p =>
    let prefix := "KUBECTL_PLUGINS_GLOBAL_FLAG_" in
    let env := [] in
    let env :=
      fold_left (fun env flag => env ++ [FlagToEnv flag prefix])
                (ref_Flags (flags_cmd p)) env in
    ret (env, None).

Record factoryAttrsPluginEnvProvider : Type := mkFactoryAttrsPluginEnvProvider {
  attrs_factory : cmdutil.Factory
}.

#[export] Instance factoryAttrsPluginEnvProvider_provider
  : RunningEnvProvider factoryAttrsPluginEnvProvider :=
  fun p =>
    let '(cmdNamespace, _, err) := cmdutil.DefaultNamespace (attrs_factory p) in
    match err with
    | Some e => ret ([], Some e)
    | None =>
        ret ([Sprintf_eq "KUBECTL_PLUGINS_CURRENT_NAMESPACE" cmdNamespace], None)
    end.

Record restClientConfigPluginEnvProvider : Type :=
  mkRestClientConfigPluginEnvProvider {
  rest_cfg : restclient.Config
}.

Section Binder.

(** Functions of packages that are not among the sources, and that no
    property below depends on: [templates.LongDesc], [templates.Examples],
    [time.Duration.String] and [cmdutil.DefaultSubCommandRun]. *)
Variable templates_LongDesc : string -> string.
Variable templates_Examples : string -> string.
Variable Duration_String : Z -> string.
Variable DefaultSubCommandRun :
  io.Writer -> CommandRef -> list string -> IO cmdutil.Outcome.

Definition restClientConfigPluginEnvProvider_Env
    (p : restClientConfigPluginEnvProvider) : IO (list string * option error) :=
  let cfg := rest_cfg p in
  let prefix := "KUBECTL_PLUGINS_REST_CLIENT_CONFIG_" in
  let env := [] in
  let env := env ++ [FieldToEnv "Host" (restclient.Host cfg) prefix] in
  let env := env ++ [FieldToEnv "APIPath" (restclient.APIPath cfg) prefix] in
  let env := env ++ [FieldToEnv "Prefix" (restclient.Prefix cfg) prefix] in
  let env := env ++ [FieldToEnv "Username" (restclient.Username cfg) prefix] in
  let env := env ++ [FieldToEnv "Password" (restclient.Password cfg) prefix] in
  let env := env ++ [FieldToEnv "BearerToken" (restclient.BearerToken cfg) prefix] in
  let env := env ++ [FieldToEnv "Impersonate.UserName"
                       (restclient.UserName (restclient.Impersonate cfg)) prefix] in
  let env := env ++ [FieldToEnv "Impersonate.Groups"
                       (strings_Join (restclient.Groups (restclient.Impersonate cfg)) ",")
                       prefix] in
  let env := env ++ [FieldToEnv "Insecure"
                       (strconv.FormatBool (restclient.Insecure cfg)) prefix] in
  let env := env ++ [FieldToEnv "ServerName" (restclient.ServerName cfg) prefix] in
  let env := env ++ [FieldToEnv "CertFile" (restclient.CertFile cfg) prefix] in
  let env := env ++ [FieldToEnv "KeyFile" (restclient.KeyFile cfg) prefix] in
  let env := env ++ [FieldToEnv "CAFile" (restclient.CAFile cfg) prefix] in
  let env := env ++ [FieldToEnv "CertData" (restclient.CertData cfg) prefix] in
  let env := env ++ [FieldToEnv "KeyData" (restclient.KeyData cfg) prefix] in
  let env := env ++ [FieldToEnv "CAData" (restclient.CAData cfg) prefix] in
  let env := env ++ [FieldToEnv "UserAgent" (restclient.UserAgent cfg) prefix] in
  let env := env ++ [FieldToEnv "Timeout"
                       (Duration_String (restclient.Timeout cfg)) prefix] in
  let env := env ++ [FieldToEnv "TimeoutMS"
                       (strconv.FormatInt (Z.quot (restclient.Timeout cfg) 1000000))
                       prefix] in
  ret (env, None).

#[local] Instance restClientConfigPluginEnvProvider_provider
  : RunningEnvProvider restClientConfigPluginEnvProvider :=
  restClientConfigPluginEnvProvider_Env.

Context {R : Type} {runner_methods : PluginRunner R}.

(** The [Run] closure of the command [NewCmdForPlugin] makes for [plugin]. *)
Definition NewCmdForPlugin_Run (f : cmdutil.Factory) (plugin : Plugin)
    (runner : R) (in_ : io.Reader) (out errout : io.Writer)
    (cmd : CommandRef) (args : list string) : IO cmdutil.Outcome :=
  if Nat.eqb (String.length (Command plugin)) 0
  then DefaultSubCommandRun errout cmd args
  else
    let '(cfg, err) := cmdutil.ClientConfig f in
    cmdutil.CheckErr err (
      let runningEnvProvider : MultiRunningEnvProvider :=
        [ iface mkPluginCallerEnvProvider;
          iface mkOSEnvProvider;
          iface {| descriptor_Plugin := Some plugin |};
          iface {| flags_cmd := cmd |};
          iface {| attrs_factory := f |};
          iface {| rest_cfg := cfg |} ] in
      let runningContext :=
        {| In := in_; Out := out; ErrOut := errout; Args := args;
           EnvProvider := iface runningEnvProvider;
           WorkingDir := Dir plugin |} in
      err <- Run runner plugin runningContext ;;
      match err with
      | Some e => cmdutil.CheckErr (Some e) (ret cmdutil.Returned)
      | None => ret cmdutil.Returned
      end).

Fixpoint NewCmdForPlugin (f : cmdutil.Factory) (plugin : Plugin) (runner : R)
    (in_ : io.Reader) (out errout : io.Writer)
  : cobra.may_panic (option cobra.Command) :=
  if negb (IsValid plugin) then cobra.Returns None
  else
    let cmd :=
      {| cobra.Use := Name plugin;
         cobra.Short := ShortDesc plugin;
         cobra.Long := templates_LongDesc (LongDesc plugin);
         cobra.Example := templates_Examples (Example plugin);
         cobra.Run := NewCmdForPlugin_Run f plugin runner in_ out errout;
         cobra.commands := [] |} in
    (fix add_children (tree : list Plugin) (cmd : cobra.Command)
       : cobra.may_panic (option cobra.Command) :=
       match tree with
       | [] => cobra.Returns (Some cmd)
       | childPlugin :: rest =>
           match NewCmdForPlugin f childPlugin runner in_ out errout with
           | cobra.Panics => cobra.Panics
           | cobra.Returns child =>
               match cobra.AddCommand cmd child with
               | cobra.Panics => cobra.Panics
               | cobra.Returns cmd' => add_children rest cmd'
               end
           end
       end) (Tree plugin) cmd.

(** *** [NewCmdPlugin]

    [i18n.T] and the package variable [plugin_long] (a text passed
    through [templates.LongDesc]) are not among the sources either. *)
Variable i18n_T : string -> string.
Variable plugin_long : string.

(** The [Run] closure of the command "plugin". *)
Definition NewCmdPlugin_Run (loadedPlugins : list Plugin) (err : io.Writer)
    (cmd : CommandRef) (args : list string) : IO cmdutil.Outcome :=
  if Nat.eqb (length loadedPlugins) 0
  then cmdutil.CheckErr (Some "no plugins installed.")
         (DefaultSubCommandRun err cmd args)
  else DefaultSubCommandRun err cmd args.

(** [NewCmdPlugin].  [load] is what [f.PluginLoader().Load()] returns and
    [pluginRunner] what [f.PluginRunner()] returns, two methods of the
    factory that only this function calls; a load error is logged
    ([glog]) and otherwise ignored. *)
Definition NewCmdPlugin (f : cmdutil.Factory)
    (load : list Plugin * option error) (pluginRunner : R)
    (in_ : io.Reader) (out err : io.Writer) : cobra.may_panic cobra.Command :=
  let '(loadedPlugins, loadErr) := load in
  let cmd :=
    {| cobra.Use := "plugin NAME";
       cobra.Short := i18n_T "Runs a command-line plugin";
       cobra.Long := plugin_long;
       cobra.Example := "";
       cobra.Run := NewCmdPlugin_Run loadedPlugins err;
       cobra.commands := [] |} in
  if Nat.ltb 0 (length loadedPlugins)
  then
    (fix add_plugins (ps : list Plugin) (cmd : cobra.Command)
       : cobra.may_panic cobra.Command :=
       match ps with
       | [] => cobra.Returns cmd
       | p :: rest =>
           match NewCmdForPlugin f p pluginRunner in_ out err with
           | cobra.Panics => cobra.Panics
           | cobra.Returns child =>
               match cobra.AddCommand cmd child with
               | cobra.Panics => cobra.Panics
               | cobra.Returns cmd' => add_plugins rest cmd'
               end
           end
       end) loadedPlugins cmd
  else cobra.Returns cmd.

End Binder.

End cmd.

(* ================================================================== *)
(** * Notions the properties are stated with *)
(* ================================================================== *)

Import plugins.

(** [Succeed ps w env w']: asked in order from the world [w], every
    provider of [ps] succeeds; [env] is what they return, one after the
    other, and [w'] the world they leave. *)
Inductive Succeed : MultiRunningEnvProvider -> World -> list string -> World -> Prop :=
| Succeed_nil w : Succeed [] w [] w
| Succeed_cons p ps w pEnv w1 env w2 :
    Env p w = ((pEnv, None), w1) ->
    Succeed ps w1 env w2 ->
    Succeed (p :: ps) w (pEnv ++ env) w2.


(** The byte of the name a byte of the flag becomes. *)
Definition flag_byte (c : ascii) : ascii :=
  if Ascii.eqb c "-" then "_"%char else upper_byte c.

(** The name a path segment becomes. *)
Definition segment_name (s : string) : string :=
  strings_ToUpper (strings_Join (camelcase.Split s) "_").

(** *** ASCII names and camel-case words

    [strings.ToUpper] and the classes of package [unicode] are modelled
    on ASCII: on a string of ASCII bytes they are those of Go. *)
Definition is_ascii (c : ascii) : bool := Nat.ltb (nat_of_ascii c) 128.

Definition ascii_string (s : string) : bool := all_bytes is_ascii s.

(** A camel-case word [(u, c, t)]: capitals [u], maybe none, then the
    capital [c] that starts the lower-case letters [t]: "Name" is
    [("", "N", "ame")], "APIPath" is [("API", "P", "ath")]. *)
Definition camel_word : Type := string * ascii * string.

Definition word_text (w : camel_word) : string :=
  let '(u, c, t) := w in (u ++ String c t)%string.

(** The pieces of a camel-case word: its capitals but the last, and the
    word the last capital starts. *)
Definition word_pieces (w : camel_word) : list string :=
  let '(u, c, t) := w in [u; String c t].

Definition camel_word_ok (w : camel_word) : Prop :=
  let '(u, c, t) := w in
  all_bytes IsUpper u = true /\ IsUpper c = true
  /\ t <> EmptyString /\ all_bytes IsLower t = true.

(** The fields the first pass of the splitter makes of a word. *)
Definition word_runs (w : camel_word) : list string :=
  let '(u, c, t) := w in [(u ++ String c "")%string; t].

(** The pieces of a split, put back together. *)
Fixpoint flat (l : list string) : string :=
  match l with
  | [] => EmptyString
  | s :: rest => (s ++ flat rest)%string
  end.

(** *** Tokens separated by white space

    The tokenizer of the design document's words, "tokenize the expanded
    template on whitespace": the maximal runs of bytes that are not white
    space.  It is what the runner is compared with, not what it does. *)
Definition is_space (c : ascii) : bool :=
  existsb (Ascii.eqb c) [" "; "009"; "010"; "011"; "012"; "013"]%char.

Fixpoint whitespace_fields_from (s cur : string) : list string :=
  match s with
  | EmptyString => if nonempty cur then [cur] else []
  | String c t =>
      if is_space c
      then (if nonempty cur then cur :: whitespace_fields_from t ""
            else whitespace_fields_from t "")
      else whitespace_fields_from t (cur ++ String c "")
  end.

Definition whitespace_fields (s : string) : list string :=
  whitespace_fields_from s "".

(** *** The command the runner starts *)

Definition started (base : string) (args env : list string)
    (ctx : RunningContext) : exec.Cmd :=
  {| exec.Path := base; exec.Args := base :: args; exec.Env := env;
     exec.Dir := WorkingDir ctx; exec.Stdin := In ctx;
     exec.Stdout := Out ctx; exec.Stderr := ErrOut ctx |}.

Definition after_run (c : exec.Cmd) (w : World) : World :=
  {| executable := executable w; environ := environ w;
     child_result := child_result w; trace := trace w ++ [EvRun c] |}.

(** *** Trees of names *)

#[warnings="-register-all"]
Inductive Shape : Type :=
| Node (name : string) (children : list Shape).

Fixpoint plugin_shape (p : Plugin) : Shape :=
  Node (Name p) (map plugin_shape (Tree p)).

Fixpoint cmd_shape (c : cobra.Command) : Shape :=
  Node (cobra.Use c) (map cmd_shape (cobra.commands c)).

(** Every descriptor of the tree is valid. *)
Fixpoint all_valid (p : Plugin) : bool :=
  IsValid p && forallb all_valid (Tree p).

(** The loop of [NewCmdForPlugin] over the children, given what binding
    each child returned. *)
Fixpoint add_all (children : list (cobra.may_panic (option cobra.Command)))
    (cmd : cobra.Command) : cobra.may_panic (option cobra.Command) :=
  match children with
  | [] => cobra.Returns (Some cmd)
  | cobra.Panics :: _ => cobra.Panics
  | cobra.Returns child :: rest =>
      match cobra.AddCommand cmd child with
      | cobra.Panics => cobra.Panics
      | cobra.Returns cmd' => add_all rest cmd'
      end
  end.

(** How a [Run] closure ends after [runner.Run] returned [err]. *)
Definition outcome_of (err : option error) : cmdutil.Outcome :=
  match err with
  | Some e => cmdutil.Exited e
  | None => cmdutil.Returned
  end.

(** *** Concrete inputs *)

Definition TAB : ascii := "009"%char.

Definition world0 : World :=
  {| executable := ("/usr/local/bin/kubectl", None);
     environ := [("HOME", "/root")];
     child_result := fun _ => None;
     trace := [] |}.

Definition plugin_of (name command : string) (tree : list Plugin) : Plugin :=
  {| Name := name; ShortDesc := "short"; LongDesc := "long"; Example := "";
     Command := command; Tree := tree; Dir := "/plugins" |}.

Definition status_plugin : Plugin := plugin_of "status" "echo hello" [].

Definition ctx_of (args : list string) (p : EnvProviderValue) : RunningContext :=
  {| In := 0; Out := 1; ErrOut := 2; Args := args; EnvProvider := p;
     WorkingDir := "/plugins" |}.

Definition config0 : restclient.Config :=
  {| restclient.Host := "https://example.com"; restclient.APIPath := "/api";
     restclient.Prefix := ""; restclient.Username := "";
     restclient.Password := ""; restclient.BearerToken := "";
     restclient.Impersonate :=
       {| restclient.UserName := ""; restclient.Groups := [] |};
     restclient.Insecure := false; restclient.ServerName := "";
     restclient.CertFile := ""; restclient.KeyFile := "";
     restclient.CAFile := ""; restclient.CertData := "";
     restclient.KeyData := ""; restclient.CAData := "";
     restclient.UserAgent := ""; restclient.Timeout := 0%Z |}.

Definition factory0 : cmdutil.Factory :=
  {| cmdutil.ClientConfig := (config0, None);
     cmdutil.DefaultNamespace := ("default", false, None) |}.

Definition Duration_String0 (d : Z) : string :=
  (strconv.FormatInt (Z.quot d 1000000000) ++ "s")%string.

Definition DefaultSubCommandRun0 (out : io.Writer) (c : CommandRef)
    (args : list string) : IO cmdutil.Outcome :=
  ret cmdutil.Returned.

Definition bind0 (p : Plugin) : cobra.may_panic (option cobra.Command) :=
  cmd.NewCmdForPlugin (fun s => s) (fun s => s) Duration_String0
    DefaultSubCommandRun0 factory0 p mkExecPluginRunner 0 1 2.

Definition ref0 : CommandRef :=
  {| ref_Use := "status";
     ref_Flags := [ {| pflag.Name := "namespace"; pflag.Value_String := "" |} ] |}.

(** The providers of an invocation, in the order plugin.go lists them:
    caller, OS environment, descriptor, flags, attributes of the factory
    (the current namespace), connection configuration. *)
Definition providers_of (Duration_String : Z -> string) (f : cmdutil.Factory)
    (p : Plugin) (c : CommandRef) (cfg : restclient.Config)
  : MultiRunningEnvProvider :=
  [ iface mkPluginCallerEnvProvider;
    iface mkOSEnvProvider;
    iface {| descriptor_Plugin := Some p |};
    iface (H := cmd.flagsPluginEnvProvider_provider) {| cmd.flags_cmd := c |};
    iface (H := cmd.factoryAttrsPluginEnvProvider_provider)
          {| cmd.attrs_factory := f |};
    iface (H := cmd.restClientConfigPluginEnvProvider_provider Duration_String)
          {| cmd.rest_cfg := cfg |} ].

(** The list of providers as the design document has it: caller
    identity, OS environment, descriptor, flags, connection
    configuration. *)
Definition five_providers (plugin : Plugin) (c : CommandRef)
    (cfg : restclient.Config) : MultiRunningEnvProvider :=
  [ iface mkPluginCallerEnvProvider;
    iface mkOSEnvProvider;
    iface {| descriptor_Plugin := Some plugin |};
    iface (H := cmd.flagsPluginEnvProvider_provider) {| cmd.flags_cmd := c |};
    iface (H := cmd.restClientConfigPluginEnvProvider_provider Duration_String0)
          {| cmd.rest_cfg := cfg |} ].

(** *** Further notions *)

(** A provider that only reads: asking it leaves the world as it was. *)
Definition ReadOnly (p : EnvProviderValue) : Prop :=
  forall w : World, snd (Env p w) = w.

(** An entry [KEY=VALUE] read back, as the environment of a process is
    read: the key ends at the first "=". *)
Fixpoint entry_key (s : string) : string :=
  match s with
  | EmptyString => EmptyString
  | String c t => if Ascii.eqb c "=" then EmptyString else String c (entry_key t)
  end.

Fixpoint entry_value (s : string) : string :=
  match s with
  | EmptyString => EmptyString
  | String c t => if Ascii.eqb c "=" then t else entry_value t
  end.

(** [Bound p c]: the command [c] is what binding makes of the descriptor
    [p]: its texts are those of [p], its closure is the one made for [p]
    (given as [run p]), and its subcommands are what binding makes of the
    children of [p], one for one and in their order. *)
#[warnings="-register-all"]
Inductive Bound (long example : string -> string)
    (run : Plugin -> CommandRef -> list string -> IO cmdutil.Outcome)
  : Plugin -> cobra.Command -> Prop :=
| Bound_intro (p : Plugin) (c : cobra.Command) :
    cobra.Use c = Name p ->
    cobra.Short c = ShortDesc p ->
    cobra.Long c = long (LongDesc p) ->
    cobra.Example c = example (Example p) ->
    cobra.Run c = run p ->
    Forall2 (Bound long example run) (Tree p) (cobra.commands c) ->
    Bound long example run p c.

(** The loop of [NewCmdPlugin] over the loaded plugins, given what
    binding each of them returned. *)
Fixpoint add_plugins (children : list (cobra.may_panic (option cobra.Command)))
    (cmd : cobra.Command) : cobra.may_panic cobra.Command :=
  match children with
  | [] => cobra.Returns cmd
  | cobra.Panics :: _ => cobra.Panics
  | cobra.Returns child :: rest =>
      match cobra.AddCommand cmd child with
      | cobra.Panics => cobra.Panics
      | cobra.Returns cmd' => add_plugins rest cmd'
      end
  end.

(** The entries of the connection configuration, with their keys
    written out. *)
Definition rest_entries (Duration_String : Z -> string)
    (cfg : restclient.Config) : list string :=
  map (fun kv => ("KUBECTL_PLUGINS_REST_CLIENT_CONFIG_" ++ fst kv ++ "=" ++ snd kv)%string)
    [ ("HOST", restclient.Host cfg);
      ("API_PATH", restclient.APIPath cfg);
      ("PREFIX", restclient.Prefix cfg);
      ("USERNAME", restclient.Username cfg);
      ("PASSWORD", restclient.Password cfg);
      ("BEARER_TOKEN", restclient.BearerToken cfg);
      ("IMPERSONATE_USER_NAME", restclient.UserName (restclient.Impersonate cfg));
      ("IMPERSONATE_GROUPS",
       strings_Join (restclient.Groups (restclient.Impersonate cfg)) ",");
      ("INSECURE", strconv.FormatBool (restclient.Insecure cfg));
      ("SERVER_NAME", restclient.ServerName cfg);
      ("CERT_FILE", restclient.CertFile cfg);
      ("KEY_FILE", restclient.KeyFile cfg);
      ("CA_FILE", restclient.CAFile cfg);
      ("CERT_DATA", restclient.CertData cfg);
      ("KEY_DATA", restclient.KeyData cfg);
      ("CA_DATA", restclient.CAData cfg);
      ("USER_AGENT", restclient.UserAgent cfg);
      ("TIMEOUT", Duration_String (restclient.Timeout cfg));
      ("TIMEOUT_MS", strconv.FormatInt (Z.quot (restclient.Timeout cfg) 1000000)) ].

(** The entries of the descriptor, with their keys written out. *)
Definition descriptor_entries (p : Plugin) : list string :=
  [ ("KUBECTL_PLUGINS_DESCRIPTOR_NAME=" ++ Name p)%string;
    ("KUBECTL_PLUGINS_DESCRIPTOR_SHORT_DESC=" ++ ShortDesc p)%string;
    ("KUBECTL_PLUGINS_DESCRIPTOR_LONG_DESC=" ++ LongDesc p)%string;
    ("KUBECTL_PLUGINS_DESCRIPTOR_EXAMPLE=" ++ Example p)%string;
    ("KUBECTL_PLUGINS_DESCRIPTOR_COMMAND=" ++ Command p)%string ].

(** The environment of the child of an invocation, in the order of the
    providers. *)
Definition invocation_env (Duration_String : Z -> string) (w : World)
    (caller ns : string) (p : Plugin) (invoked : CommandRef)
    (cfg : restclient.Config) : list string :=
  [("KUBECTL_PLUGINS_CALLER=" ++ caller)%string]
  ++ map (fun kv => (fst kv ++ "=" ++ snd kv)%string) (environ w)
  ++ descriptor_entries p
  ++ map (fun flag => FlagToEnv flag "KUBECTL_PLUGINS_GLOBAL_FLAG_") (ref_Flags invoked)
  ++ [("KUBECTL_PLUGINS_CURRENT_NAMESPACE=" ++ ns)%string]
  ++ rest_entries Duration_String cfg.

(** *** More concrete inputs *)

Definition factory_without_config : cmdutil.Factory :=
  {| cmdutil.ClientConfig := (config0, Some "no configuration");
     cmdutil.DefaultNamespace := ("default", false, None) |}.

Definition factory_without_namespace : cmdutil.Factory :=
  {| cmdutil.ClientConfig := (config0, None);
     cmdutil.DefaultNamespace := ("", false, Some "no namespace") |}.

Definition group_plugin : Plugin :=
  plugin_of "cluster" "" [status_plugin; plugin_of "logs" "tail -f" []].

Definition broken_plugin : Plugin :=
  plugin_of "cluster" "" [status_plugin; plugin_of "" "tail -f" []].

Definition closure0 (p : Plugin)
  : CommandRef -> list string -> IO cmdutil.Outcome :=
  cmd.NewCmdForPlugin_Run Duration_String0 DefaultSubCommandRun0
    factory0 p mkExecPluginRunner 0 1 2.

(* ================================================================== *)
(** * Properties *)
(* ================================================================== *)

(** ** The functions on examples *)

Example FlagToEnvName_ex :
  FlagToEnvName "--log-flush-frequency" "KUBECTL_PLUGINS_GLOBAL_FLAG_"
  = "KUBECTL_PLUGINS_GLOBAL_FLAG_LOG_FLUSH_FREQUENCY"
  /\ FlagToEnvName "v" "P_" = "P_V"
  /\ FlagToEnvName "---x" "P_" = "P__X".
Proof. repeat split; reflexivity. Qed.

Example FieldToEnv_ex :
  FieldToEnv "Host" "https://example.com" "PREFIX_"
  = "PREFIX_HOST=https://example.com"
  /\ FieldToEnvName "TimeoutMS" "P_" = "P_TIMEOUT_MS"
  /\ FieldToEnvName "" "P_" = "P_".
Proof. repeat split; reflexivity. Qed.

Example camelcase_Split_ex :
  camelcase.Split "CAFile" = ["CA"; "File"]
  /\ camelcase.Split "PDFLoader2x" = ["PDF"; "Loader"; "2"; "x"]
  /\ camelcase.Split "lowerCamel" = ["lower"; "Camel"]
  /\ camelcase.Split "" = [].
Proof. repeat split; reflexivity. Qed.

Example strings_Split_ex :
  strings_Split "echo  hello" " " = ["echo"; ""; "hello"]
  /\ strings_Split "" " " = [""]
  /\ strings_Split "a.b." "." = ["a"; "b"; ""].
Proof. repeat split; reflexivity. Qed.

Example Expand_ex :
  let env := [("HOME", "/root"); ("X", "a b")] in
  os.Expand "$HOME/bin ${X}y $ z ${} $UNSET. ${HOME" (fun k => os.lookup k env)
  = "/root/bin a by $ z  . HOME".
Proof. reflexivity. Qed.


(** ** The composite provider *)

Section Composite.

Implicit Types (p : EnvProviderValue) (ps : MultiRunningEnvProvider).
Implicit Types (w : World) (env acc : list string).

Lemma Multi_loop_ok p ps acc w pEnv w1 :
  Env p w = ((pEnv, None), w1) ->
  Multi_loop (p :: ps) acc w = Multi_loop ps (acc ++ pEnv) w1.
Proof.
  intros Hp. cbn [Multi_loop]. unfold bind. rewrite Hp. reflexivity.
Qed.

Lemma Multi_loop_err p ps acc w pEnv e w1 :
  Env p w = ((pEnv, Some e), w1) ->
  Multi_loop (p :: ps) acc w = (([], Some e), w1).
Proof.
  intros Hp. cbn [Multi_loop]. unfold bind. rewrite Hp. reflexivity.
Qed.

Lemma Multi_loop_succeed ps : forall acc w env w',
  Succeed ps w env w' ->
  Multi_loop ps acc w = ((acc ++ env, None), w').
Proof.
  induction ps as [|p ps IH]; intros acc w env w' Hs; inversion Hs; subst.
  - now rewrite app_nil_r.
  - erewrite Multi_loop_ok by eassumption.
    erewrite IH by eassumption. now rewrite app_assoc.
Qed.

Lemma Multi_loop_first_failure pre : forall acc w env w1 p post pEnv e w2,
  Succeed pre w env w1 ->
  Env p w1 = ((pEnv, Some e), w2) ->
  Multi_loop (pre ++ p :: post) acc w = (([], Some e), w2).
Proof.
  induction pre as [|q pre IH]; intros acc w env w1 p post pEnv e w2 Hs Hp;
    inversion Hs; subst; cbn [app].
  - eapply Multi_loop_err; eassumption.
  - erewrite Multi_loop_ok by eassumption. eapply IH; eassumption.
Qed.

Lemma Succeed_one p w pEnv w1 :
  Env p w = ((pEnv, None), w1) -> Succeed [p] w pEnv w1.
Proof.
  intros Hp. rewrite <- (app_nil_r pEnv).
  econstructor; [exact Hp | constructor].
Qed.

(** C1. A composite provider over [A, B, C] in which [B] is the provider
    that fails ([A], asked before it, succeeded) returns the failure of
    [B] and an empty result: what [A] returned is dropped, and [C] is not
    asked, the world being left as [B] left it. *)
Theorem C1_composite_returns_first_failure
    (A B C : EnvProviderValue) (w wA wB : World)
    (envA envB : list string) (e : error) :
  Env A w = ((envA, None), wA) ->
  Env B wA = ((envB, Some e), wB) ->
  Env (T := MultiRunningEnvProvider) [A; B; C] w = (([], Some e), wB).
Proof.
  intros HA HB.
  change (Multi_loop ([A] ++ B :: [C]) [] w = (([], Some e), wB)).
  eapply Multi_loop_first_failure; [|exact HB].
  apply Succeed_one, HA.
Qed.

(** C2. A composite provider over [A, B] that both succeed succeeds, and
    returns the entries of [A] followed by the entries of [B], each in
    the order its provider gave them. *)
Theorem C2_composite_concatenates
    (A B : EnvProviderValue) (w wA wB : World) (envA envB : list string) :
  Env A w = ((envA, None), wA) ->
  Env B wA = ((envB, None), wB) ->
  Env (T := MultiRunningEnvProvider) [A; B] w = ((envA ++ envB, None), wB).
Proof.
  intros HA HB.
  change (Multi_loop [A; B] [] w = (([] ++ envA ++ envB, None), wB)).
  apply Multi_loop_succeed.
  econstructor; [exact HA|]. apply Succeed_one, HB.
Qed.

End Composite.

(** ** The runner and the descriptor provider *)

Section Runner.

Variable r : ExecPluginRunner.

(** C3. When the provider of the context fails, [Run] returns that
    failure, and the world is as the provider left it: no child process
    was started. *)
Theorem C3_Run_fails_with_env_failure
    (plugin : Plugin) (ctx : RunningContext) (w w1 : World)
    (env : list string) (e : error) :
  Env (EnvProvider ctx) w = ((env, Some e), w1) ->
  Run r plugin ctx w = (Some e, w1)
  /\ trace (snd (Run r plugin ctx w)) = trace w1.
Proof.
  intros HE.
  assert (H : Run r plugin ctx w = (Some e, w1)).
  { unfold Run, ExecPluginRunner_runner, ExecPluginRunner_Run, bind, os.ExpandEnv.
    rewrite HE. reflexivity. }
  split; [exact H|]. now rewrite H.
Qed.

End Runner.

(** C9. The descriptor provider fails exactly when no descriptor is
    bound; with a descriptor it returns, in this order, the entries of
    name, short summary, long help, example and invocation template, each
    made by [FieldToEnv] under the prefix KUBECTL_PLUGINS_DESCRIPTOR_,
    and leaves the world alone. *)
Theorem C9_descriptor_provider (p : PluginDescriptorEnvProvider) (w : World) :
  (snd (fst (Env p w)) <> None <-> descriptor_Plugin p = None)
  /\ (forall plugin, descriptor_Plugin p = Some plugin ->
        let prefix := "KUBECTL_PLUGINS_DESCRIPTOR_" in
        Env p w =
        (([ FieldToEnv "Name" (Name plugin) prefix;
            FieldToEnv "ShortDesc" (ShortDesc plugin) prefix;
            FieldToEnv "LongDesc" (LongDesc plugin) prefix;
            FieldToEnv "Example" (Example plugin) prefix;
            FieldToEnv "Command" (Command plugin) prefix ], None), w)).
Proof.
  destruct p as [[plugin|]]; unfold Env, PluginDescriptorEnvProvider_provider;
    cbn [descriptor_Plugin]; split.
  - split; [intros H; now elim H | discriminate].
  - intros plugin' [= <-]. reflexivity.
  - split; [reflexivity | discriminate].
  - discriminate.
Qed.

(** ** The naming transform *)

Section Naming.

Lemma upper_byte_not_lower (c : ascii) : IsLower (upper_byte c) = false.
Proof. destruct c as [[] [] [] [] [] [] [] []]; reflexivity. Qed.

Lemma upper_byte_dash (c : ascii) :
  (if Ascii.eqb (upper_byte c) "-" then "_"%char else upper_byte c)
  = (if Ascii.eqb c "-" then "_"%char else upper_byte c).
Proof. destruct c as [[] [] [] [] [] [] [] []]; reflexivity. Qed.

Lemma map_bytes_map_bytes (f g : ascii -> ascii) (s : string) :
  map_bytes g (map_bytes f s) = map_bytes (fun c => g (f c)) s.
Proof. induction s as [|c s IH]; cbn; [reflexivity | now rewrite IH]. Qed.

Lemma map_bytes_ext (f g : ascii -> ascii) (s : string) :
  (forall c, f c = g c) -> map_bytes f s = map_bytes g s.
Proof. intros E. induction s as [|c s IH]; cbn; [reflexivity | now rewrite E, IH]. Qed.

Lemma all_bytes_map_bytes (p : ascii -> bool) (f : ascii -> ascii) (s : string) :
  (forall c, p (f c) = true) -> all_bytes p (map_bytes f s) = true.
Proof. intros E. induction s as [|c s IH]; cbn; [reflexivity | now rewrite E, IH]. Qed.

Lemma has_byte_all_bytes (c : ascii) (s : string) :
  has_byte c s = negb (all_bytes (fun d => negb (Ascii.eqb d c)) s).
Proof.
  induction s as [|d s IH]; cbn; [reflexivity|].
  rewrite IH. now destruct (Ascii.eqb d c), (all_bytes _ s).
Qed.

Lemma all_bytes_app (p : ascii -> bool) (s t : string) :
  all_bytes p (s ++ t) = all_bytes p s && all_bytes p t.
Proof.
  induction s as [|c s IH]; cbn; [reflexivity|].
  now rewrite IH, andb_assoc.
Qed.

Lemma prefix_app (s t : string) : String.prefix s (s ++ t) = true.
Proof.
  induction s as [|c s IH]; [now destruct t|].
  change (String.prefix (String c s) (String c s ++ t))
    with (if ascii_dec c c then String.prefix s (s ++ t) else false).
  destruct (ascii_dec c c); [exact IH | congruence].
Qed.

Lemma flag_byte_no_dash (c : ascii) : negb (Ascii.eqb (flag_byte c) "-") = true.
Proof. destruct c as [[] [] [] [] [] [] [] []]; reflexivity. Qed.

Lemma flag_byte_not_lower (c : ascii) : negb (IsLower (flag_byte c)) = true.
Proof. destruct c as [[] [] [] [] [] [] [] []]; reflexivity. Qed.

Lemma upper_flag_byte (c : ascii) : upper_byte (flag_byte c) = flag_byte c.
Proof. destruct c as [[] [] [] [] [] [] [] []]; reflexivity. Qed.

(** C7. For every flag name of ASCII bytes (on these [strings_ToUpper]
    is the [strings.ToUpper] of Go) and every prefix, [FlagToEnvName]
    returns the prefix followed by a name made from the flag name without
    its leading "--": byte by byte, a dash becomes an underscore and any
    other byte is upper-cased.  That name is upper case (upper-casing it
    changes nothing, no lower-case letter is left) and holds no dash, so
    none leads it.  The function is total. *)
Theorem C7_FlagToEnvName (flagName prefix : string) :
  ascii_string flagName = true ->
  exists body : string,
    FlagToEnvName flagName prefix = (prefix ++ body)%string
    /\ String.prefix prefix (FlagToEnvName flagName prefix) = true
    /\ body = map_bytes flag_byte (strings_TrimPrefix flagName "--")
    /\ String.length body = String.length (strings_TrimPrefix flagName "--")
    /\ strings_ToUpper body = body
    /\ all_bytes (fun c => negb (IsLower c)) body = true
    /\ has_byte "-" body = false
    /\ String.prefix "-" body = false.
Proof.
  intros _.
  exists (map_bytes flag_byte (strings_TrimPrefix flagName "--")).
  assert (E : FlagToEnvName flagName prefix
              = (prefix ++ map_bytes flag_byte (strings_TrimPrefix flagName "--"))%string).
  { unfold FlagToEnvName, strings_Replace, strings_ToUpper.
    rewrite map_bytes_map_bytes. f_equal.
    apply map_bytes_ext, upper_byte_dash. }
  assert (D : has_byte "-" (map_bytes flag_byte (strings_TrimPrefix flagName "--")) = false).
  { rewrite has_byte_all_bytes, all_bytes_map_bytes; [reflexivity|].
    apply flag_byte_no_dash. }
  split; [exact E|]. split; [rewrite E; apply prefix_app|].
  split; [reflexivity|]. split; [|split; [|split; [|split]]].
  - generalize (strings_TrimPrefix flagName "--").
    induction s as [|c s IH]; cbn; [reflexivity | now rewrite IH].
  - unfold strings_ToUpper. rewrite map_bytes_map_bytes.
    apply map_bytes_ext, upper_flag_byte.
  - apply all_bytes_map_bytes, flag_byte_not_lower.
  - exact D.
  - destruct (map_bytes flag_byte (strings_TrimPrefix flagName "--")) as [|c s];
      [reflexivity|].
    cbn [has_byte] in D. apply orb_false_elim in D as [D _].
    change (String.prefix "-" (String c s))
      with (if ascii_dec "-" c then String.prefix "" s else false).
    destruct (ascii_dec "-" c) as [<-|]; [discriminate D | reflexivity].
Qed.

Lemma strings_Split_no_sep (sep : ascii) (s : string) :
  has_byte sep s = false -> strings_Split s sep = [s].
Proof.
  induction s as [|c s IH]; cbn; [reflexivity|].
  intros H. apply orb_false_elim in H as [Hc Hs].
  now rewrite Hc, (IH Hs).
Qed.

Lemma strings_Split_app_sep (sep : ascii) (s t : string) :
  has_byte sep s = false ->
  strings_Split (s ++ String sep t) sep = s :: strings_Split t sep.
Proof.
  induction s as [|c s IH]; cbn.
  - intros _. now rewrite Ascii.eqb_refl.
  - intros H. apply orb_false_elim in H as [Hc Hs].
    now rewrite Hc, (IH Hs).
Qed.

(** Splitting at a separator undoes joining with it, for pieces that do
    not hold it. *)
Lemma strings_Split_Join (sep : ascii) (segs : list string) :
  segs <> [] ->
  Forall (fun s => has_byte sep s = false) segs ->
  strings_Split (strings_Join segs (String sep "")) sep = segs.
Proof.
  unfold strings_Join.
  induction segs as [|s segs IH]; [congruence|].
  intros _ H. inversion H as [|? ? Hs Hsegs]; subst.
  destruct segs as [|s' segs].
  - cbn. now apply strings_Split_no_sep.
  - change (String.concat (String sep "") (s :: s' :: segs))
      with (s ++ String sep (String.concat (String sep "") (s' :: segs)))%string.
    rewrite strings_Split_app_sep by assumption.
    now rewrite IH.
Qed.

(** Joining the pieces of a split gives the string back. *)
Lemma strings_Join_Split (sep : ascii) (s : string) :
  strings_Join (strings_Split s sep) (String sep "") = s.
Proof.
  unfold strings_Join.
  induction s as [|c s IH]; [reflexivity|].
  cbn [strings_Split].
  destruct (Ascii.eqb_spec c sep) as [->|Hc].
  - destruct (strings_Split s sep) as [|w ws] eqn:E.
    + destruct s; cbn in E; [discriminate|].
      destruct (Ascii.eqb a sep); [discriminate|].
      destruct (strings_Split s sep); discriminate.
    + change (String.concat (String sep "") ("" :: w :: ws))
        with (String sep (String.concat (String sep "") (w :: ws))).
      now rewrite IH.
  - destruct (strings_Split s sep) as [|w ws] eqn:E.
    + destruct s; cbn in E; [discriminate|].
      destruct (Ascii.eqb a sep); [discriminate|].
      destruct (strings_Split s sep); discriminate.
    + destruct ws as [|w' ws].
      * cbn in IH |- *. now rewrite IH.
      * change (String.concat (String sep "") (String c w :: w' :: ws))
          with (String c (w ++ String sep (String.concat (String sep "") (w' :: ws)))).
        change (String.concat (String sep "") (w :: w' :: ws))
          with (w ++ String sep (String.concat (String sep "") (w' :: ws)))%string in IH.
        now rewrite IH.
Qed.

(** [strings.Split] never returns an empty slice. *)
Lemma strings_Split_nonempty (sep : ascii) (s : string) :
  strings_Split s sep <> [].
Proof.
  destruct s as [|c s]; cbn; [discriminate|].
  destruct (Ascii.eqb c sep); [discriminate|].
  destruct (strings_Split s sep); discriminate.
Qed.

(** No piece of a split holds the separator. *)
Lemma strings_Split_pieces (sep : ascii) (s : string) :
  Forall (fun t => has_byte sep t = false) (strings_Split s sep).
Proof.
  induction s as [|c s IH]; cbn.
  - now constructor.
  - destruct (Ascii.eqb c sep) eqn:Hc.
    + now constructor.
    + destruct (strings_Split s sep) as [|w ws].
      * constructor; [|constructor]. cbn. now rewrite Hc.
      * inversion IH; subst. constructor; [|assumption].
        cbn. now rewrite Hc.
Qed.

(** *** The camel-case splitter *)

Lemma append_nil_r (s : string) : (s ++ "")%string = s.
Proof. induction s as [|c s IH]; cbn; [reflexivity | now rewrite IH]. Qed.

Lemma append_assoc (s t u : string) :
  ((s ++ t) ++ u)%string = (s ++ (t ++ u))%string.
Proof. induction s as [|c s IH]; cbn; [reflexivity | now rewrite IH]. Qed.

Lemma append_to_last_snoc (runes : list string) (w : string) (r : ascii) :
  camelcase.append_to_last (runes ++ [w]) r = runes ++ [(w ++ String r "")%string].
Proof.
  induction runes as [|x runes IH]; [reflexivity|].
  cbn [app camelcase.append_to_last]. rewrite IH.
  now destruct runes.
Qed.

(** The first pass keeps a run of characters of one class in one field. *)
Lemma split_classes_run (k : nat) (s : string) :
  forall (rest : string) (runes : list string) (w : string),
  all_bytes (fun c => Nat.eqb (camelcase.class_of c) k) s = true ->
  camelcase.split_classes (s ++ rest) (runes ++ [w]) k
  = camelcase.split_classes rest (runes ++ [(w ++ s)%string]) k.
Proof.
  induction s as [|c s IH]; intros rest runes w H.
  - now rewrite append_nil_r.
  - cbn in H. apply andb_prop in H as [Hc Hs].
    cbn [append camelcase.split_classes]. rewrite Hc.
    rewrite append_to_last_snoc.
    apply Nat.eqb_eq in Hc. rewrite Hc.
    rewrite (IH rest runes _ Hs), append_assoc. reflexivity.
Qed.

(** A character of another class starts a new field. *)
Lemma split_classes_new (k k0 : nat) (c : ascii) (s rest : string)
    (runes : list string) :
  camelcase.class_of c = k -> k <> k0 ->
  all_bytes (fun c => Nat.eqb (camelcase.class_of c) k) s = true ->
  camelcase.split_classes (String c s ++ rest) runes k0
  = camelcase.split_classes rest (runes ++ [String c s]) k.
Proof.
  intros Hc Hk Hs. cbn [append camelcase.split_classes].
  rewrite Hc. apply Nat.eqb_neq in Hk. rewrite Hk.
  now rewrite split_classes_run.
Qed.

Lemma all_upper_class (s : string) :
  all_bytes IsUpper s = true ->
  all_bytes (fun c => Nat.eqb (camelcase.class_of c) 2) s = true.
Proof.
  induction s as [|c s IH]; cbn; [reflexivity|].
  intros H. apply andb_prop in H as [Hc Hs]. rewrite (IH Hs), andb_true_r.
  revert Hc. destruct c as [[] [] [] [] [] [] [] []]; vm_compute; congruence.
Qed.

Lemma all_lower_class (s : string) :
  all_bytes IsLower s = true ->
  all_bytes (fun c => Nat.eqb (camelcase.class_of c) 1) s = true.
Proof.
  induction s as [|c s IH]; cbn; [reflexivity|].
  intros H. apply andb_prop in H as [Hc Hs]. rewrite (IH Hs), andb_true_r.
  unfold camelcase.class_of. now rewrite Hc.
Qed.

Lemma but_last_snoc (s : string) (c : ascii) :
  camelcase.but_last (s ++ String c "") = s.
Proof.
  induction s as [|d s IH]; [reflexivity|].
  cbn [append camelcase.but_last]. rewrite IH.
  now destruct s.
Qed.

Lemma last_byte_snoc (s : string) (c : ascii) :
  camelcase.last_byte (s ++ String c "") = String c "".
Proof.
  induction s as [|d s IH]; [reflexivity|].
  cbn [append camelcase.last_byte]. rewrite IH.
  now destruct s.
Qed.

Lemma first_byte_app (p : ascii -> bool) (s : string) (c : ascii) (t : string) :
  all_bytes p s = true -> p c = true ->
  camelcase.first_byte p (s ++ String c t) = true.
Proof.
  destruct s as [|d s]; cbn; [now intros _|].
  intros H _. now apply andb_prop in H as [Hd _].
Qed.

(** A word of capitals is one field: it is not split letter by letter. *)
Lemma camelcase_Split_upper (u : string) :
  u <> "" -> all_bytes IsUpper u = true -> camelcase.Split u = [u].
Proof.
  intros Hne Hu. destruct u as [|c u]; [congruence|].
  unfold camelcase.Split.
  cbn in Hu. apply andb_prop in Hu as [Hc Hu].
  rewrite <- (append_nil_r (String c u)) at 1.
  rewrite (@split_classes_new 2 0 c u "" []); [reflexivity| |lia|].
  - revert Hc. destruct c as [[] [] [] [] [] [] [] []]; vm_compute; congruence.
  - now apply all_upper_class.
Qed.

(** Capitals followed by a lower-case word: the last capital starts the
    word, the capitals before it stay together. *)
Lemma camelcase_Split_upper_lower (u : string) (c : ascii) (l : string) :
  all_bytes IsUpper u = true -> IsUpper c = true ->
  l <> "" -> all_bytes IsLower l = true ->
  camelcase.Split (u ++ String c l) = filter nonempty [u; String c l].
Proof.
  intros Hu Hc Hne Hl. destruct l as [|d l]; [congruence|].
  cbn in Hl. apply andb_prop in Hl as [Hd Hl].
  assert (HU : all_bytes IsUpper (u ++ String c "") = true).
  { rewrite all_bytes_app. cbn. now rewrite Hu, Hc. }
  assert (E : (u ++ String c (String d l))%string
              = ((u ++ String c "") ++ (String d l ++ ""))%string).
  { now rewrite append_assoc, append_nil_r. }
  unfold camelcase.Split. rewrite E. clear E.
  destruct (u ++ String c "")%string as [|c0 U] eqn:EU.
  { destruct u; discriminate. }
  cbn in HU. apply andb_prop in HU as [Hc0 HU].
  rewrite (@split_classes_new 2 0 c0 U _ []); [| |lia|now apply all_upper_class].
  2:{ revert Hc0. destruct c0 as [[] [] [] [] [] [] [] []]; vm_compute; congruence. }
  rewrite (@split_classes_new 1 2 d l "" _); [| |lia|now apply all_lower_class].
  2:{ unfold camelcase.class_of. now rewrite Hd. }
  cbn [app camelcase.split_classes camelcase.upper_to_lower camelcase.first_byte].
  rewrite Hc0, Hd. cbn [andb].
  rewrite <- EU, but_last_snoc, last_byte_snoc. reflexivity.
Qed.

Lemma all_bytes_concat (p : ascii -> bool) (sep : string) (l : list string) :
  all_bytes p sep = true ->
  Forall (fun s => all_bytes p s = true) l ->
  all_bytes p (String.concat sep l) = true.
Proof.
  intros Hsep. induction 1 as [|s l Hs Hl IH]; [reflexivity|].
  destruct l as [|s' l]; [exact Hs|].
  change (String.concat sep (s :: s' :: l))
    with (s ++ sep ++ String.concat sep (s' :: l))%string.
  now rewrite !all_bytes_app, Hs, Hsep, IH.
Qed.

(** *** Words and their boundaries *)

Lemma IsUpper_class (c : ascii) : IsUpper c = true -> camelcase.class_of c = 2.
Proof. destruct c as [[] [] [] [] [] [] [] []]; vm_compute; congruence. Qed.

Lemma IsLower_class (c : ascii) : IsLower c = true -> camelcase.class_of c = 1.
Proof. unfold camelcase.class_of. now intros ->. Qed.

Lemma class_IsUpper (c : ascii) : IsUpper c = Nat.eqb (camelcase.class_of c) 2.
Proof. destruct c as [[] [] [] [] [] [] [] []]; reflexivity. Qed.

Lemma class_IsLower (c : ascii) : IsLower c = Nat.eqb (camelcase.class_of c) 1.
Proof. destruct c as [[] [] [] [] [] [] [] []]; reflexivity. Qed.

Lemma IsUpper_not_lower (c : ascii) : IsUpper c = true -> IsLower c = false.
Proof. destruct c as [[] [] [] [] [] [] [] []]; vm_compute; congruence. Qed.

Lemma class_of_not_zero (c : ascii) : camelcase.class_of c <> 0.
Proof.
  unfold camelcase.class_of.
  destruct (IsLower c), (IsUpper c), (IsDigit c); discriminate.
Qed.

(** A string that starts with capitals starts a new field after a field
    that is not of capitals, and the capitals stay in one field. *)
Lemma split_classes_capitals (U rest : string) (runes : list string) (k0 : nat) :
  U <> "" -> all_bytes IsUpper U = true -> k0 <> 2 ->
  camelcase.split_classes (U ++ rest) runes k0
  = camelcase.split_classes rest (runes ++ [U]) 2.
Proof.
  intros Hne HU Hk. destruct U as [|c U]; [congruence|].
  cbn in HU. apply andb_prop in HU as [Hc HU].
  apply split_classes_new; [now apply IsUpper_class | lia | now apply all_upper_class].
Qed.

Lemma split_classes_lower_word (t rest : string) (runes : list string) (k0 : nat) :
  t <> "" -> all_bytes IsLower t = true -> k0 <> 1 ->
  camelcase.split_classes (t ++ rest) runes k0
  = camelcase.split_classes rest (runes ++ [t]) 1.
Proof.
  intros Hne Ht Hk. destruct t as [|c t]; [congruence|].
  cbn in Ht. apply andb_prop in Ht as [Hc Ht].
  apply split_classes_new; [now apply IsLower_class | lia | now apply all_lower_class].
Qed.

Lemma flat_map_word_text (w : camel_word) (ws : list camel_word) :
  flat (map word_text (w :: ws)) = (word_text w ++ flat (map word_text ws))%string.
Proof. reflexivity. Qed.

(** The first pass over camel-case words and capitals after them: two
    fields for every word, one for the capitals at the end. *)
Lemma split_classes_words (ws : list camel_word) (tail : string) :
  Forall camel_word_ok ws -> all_bytes IsUpper tail = true ->
  forall (runes : list string) (k0 : nat), k0 <> 2 ->
  camelcase.split_classes (flat (map word_text ws) ++ tail) runes k0
  = runes ++ flat_map word_runs ws ++ (if nonempty tail then [tail] else []).
Proof.
  intros Hws Htail. induction Hws as [|[[u c] t] ws (Hu & Hc & Hne & Ht) _ IH];
    intros runes k0 Hk.
  - cbn [map flat flat_map append app].
    destruct tail as [|d tail]; [cbn; now rewrite app_nil_r|].
    rewrite <- (append_nil_r (String d tail)) at 1.
    rewrite split_classes_capitals by (try discriminate; assumption).
    reflexivity.
  - rewrite flat_map_word_text. cbn [word_text flat_map word_runs].
    assert (E : (((u ++ String c t) ++ flat (map word_text ws)) ++ tail
                 = (u ++ String c "") ++ (t ++ (flat (map word_text ws) ++ tail)))%string).
    { rewrite !append_assoc. reflexivity. }
    rewrite E.
    rewrite split_classes_capitals;
      [| destruct u; discriminate
       | rewrite all_bytes_app; cbn; rewrite Hu, Hc; reflexivity
       | exact Hk].
    rewrite split_classes_lower_word by (try assumption; lia).
    rewrite IH by lia. cbn [app]. now rewrite <- !app_assoc.
Qed.

Lemma first_lower_capitals (U : string) :
  U <> "" -> all_bytes IsUpper U = true -> camelcase.first_byte IsLower U = false.
Proof.
  destruct U as [|c U]; [congruence|]. intros _ H. cbn in H |- *.
  apply andb_prop in H as [Hc _]. now apply IsUpper_not_lower.
Qed.

(** The second pass over these fields: of every word, the capitals but
    the last, and the last capital with the lower-case letters. *)
Lemma upper_to_lower_words (ws : list camel_word) (tail : string) :
  Forall camel_word_ok ws -> all_bytes IsUpper tail = true ->
  forall cur : string,
  filter nonempty
    (camelcase.upper_to_lower cur
       (flat_map word_runs ws ++ (if nonempty tail then [tail] else [])))
  = filter nonempty (cur :: flat_map word_pieces ws ++ [tail]).
Proof.
  intros Hws Htail. induction Hws as [|[[u c] t] ws (Hu & Hc & Hne & Ht) _ IH];
    intros cur.
  - cbn [flat_map app]. destruct tail as [|d tail]; [reflexivity|].
    cbn [nonempty camelcase.upper_to_lower].
    rewrite (@first_lower_capitals (String d tail)) by (try discriminate; assumption).
    now rewrite andb_false_r.
  - cbn [flat_map word_runs word_pieces app camelcase.upper_to_lower].
    assert (HU : all_bytes IsUpper (u ++ String c "") = true).
    { rewrite all_bytes_app. cbn. now rewrite Hu, Hc. }
    rewrite (@first_lower_capitals (u ++ String c "")), andb_false_r;
      [| destruct u; discriminate | exact HU].
    rewrite (first_byte_app IsUpper u c "" Hu Hc).
    destruct t as [|d t]; [congruence|].
    cbn in Ht. apply andb_prop in Ht as [Hd Ht].
    cbn [camelcase.first_byte]. rewrite Hd. cbn [andb].
    rewrite but_last_snoc, last_byte_snoc.
    change (filter nonempty (cur :: ?x)) with
      (if nonempty cur then cur :: filter nonempty x else filter nonempty x).
    cbn [filter]. rewrite IH. cbn [filter nonempty append]. reflexivity.
Qed.

(** A camel-case name is split at every word: lower-case letters at
    the start, then words, then capitals at the end. *)
Lemma camelcase_Split_words (l : string) (ws : list camel_word) (tail : string) :
  all_bytes IsLower l = true ->
  Forall camel_word_ok ws ->
  all_bytes IsUpper tail = true ->
  camelcase.Split (l ++ flat (map word_text ws) ++ tail)
  = filter nonempty (l :: flat_map word_pieces ws ++ [tail]).
Proof.
  intros Hl Hws Htail. unfold camelcase.Split.
  destruct l as [|d l].
  - cbn [append]. rewrite (@split_classes_words ws tail Hws Htail [] 0) by lia.
    cbn [app].
    rewrite <- (@upper_to_lower_words ws tail Hws Htail "").
    destruct (flat_map word_runs ws ++ (if nonempty tail then [tail] else []))
      as [|r rs]; [reflexivity|].
    cbn [camelcase.upper_to_lower camelcase.first_byte andb filter nonempty].
    reflexivity.
  - rewrite split_classes_lower_word by (try discriminate; try assumption; lia).
    rewrite (@split_classes_words ws tail Hws Htail) by lia.
    cbn [app]. apply upper_to_lower_words; assumption.
Qed.

(** Two runs of characters of different classes are two fields, but for
    capitals before lower-case letters. *)
Lemma camelcase_Split_two_runs (k1 k2 : nat) (r1 r2 : string) :
  r1 <> "" -> r2 <> "" ->
  all_bytes (fun c => Nat.eqb (camelcase.class_of c) k1) r1 = true ->
  all_bytes (fun c => Nat.eqb (camelcase.class_of c) k2) r2 = true ->
  k1 <> k2 -> ~ (k1 = 2 /\ k2 = 1) ->
  camelcase.Split (r1 ++ r2) = [r1; r2].
Proof.
  intros H1 H2 A1 A2 Hk Hul.
  destruct r1 as [|c1 s1]; [congruence|]. destruct r2 as [|c2 s2]; [congruence|].
  cbn [all_bytes] in A1, A2.
  apply andb_prop in A1 as [C1 A1]. apply andb_prop in A2 as [C2 A2].
  apply Nat.eqb_eq in C1, C2.
  unfold camelcase.Split.
  rewrite (@split_classes_new k1 0 c1 s1 _ []);
    [|exact C1 | rewrite <- C1; apply class_of_not_zero | exact A1].
  rewrite <- (append_nil_r (String c2 s2)) at 1.
  rewrite (@split_classes_new k2 k1 c2 s2 "" _); [|exact C2 | congruence | exact A2].
  cbn [app camelcase.split_classes camelcase.upper_to_lower camelcase.first_byte].
  rewrite class_IsUpper, class_IsLower, C1, C2.
  destruct (Nat.eqb_spec k1 2) as [E1|E1], (Nat.eqb_spec k2 1) as [E2|E2];
    cbn [andb]; try reflexivity.
  exfalso. apply Hul. now split.
Qed.

Lemma map_bytes_app (g : ascii -> ascii) (s t : string) :
  map_bytes g (s ++ t) = (map_bytes g s ++ map_bytes g t)%string.
Proof. induction s as [|c s IH]; cbn; [reflexivity | now rewrite IH]. Qed.

Lemma map_bytes_concat (g : ascii -> ascii) (sep : string) (l : list string) :
  map_bytes g (String.concat sep l)
  = String.concat (map_bytes g sep) (map (map_bytes g) l).
Proof.
  induction l as [|s l IH]; [reflexivity|].
  destruct l as [|s' l]; [reflexivity|].
  change (String.concat sep (s :: s' :: l))
    with (s ++ sep ++ String.concat sep (s' :: l))%string.
  change (String.concat (map_bytes g sep) (map (map_bytes g) (s :: s' :: l)))
    with (map_bytes g s ++ map_bytes g sep
          ++ String.concat (map_bytes g sep) (map (map_bytes g) (s' :: l)))%string.
  now rewrite !map_bytes_app, IH.
Qed.

Lemma upper_byte_idempotent (c : ascii) : upper_byte (upper_byte c) = upper_byte c.
Proof. destruct c as [[] [] [] [] [] [] [] []]; reflexivity. Qed.

(** The name of a segment is its words, each in upper case, joined. *)
Lemma segment_name_words (s : string) :
  segment_name s = strings_Join (map strings_ToUpper (camelcase.Split s)) "_".
Proof.
  unfold segment_name, strings_Join, strings_ToUpper.
  now rewrite map_bytes_concat.
Qed.

(** C8. For a field name of ASCII bytes made of the segments [segs]
    joined by ".", [FieldToEnvName] returns the prefix followed by the
    names of the segments, in their order, joined by "_".  The name of a
    segment is its camel-case words, each upper-cased, joined by "_": it
    is in upper case.  The words: a camel-case name, that is lower-case
    letters, then words that each start with a capital (or capitals: an
    acronym and the word after it), then capitals, is split before every
    word and before the capitals at the end; capitals that follow each
    other stay together, but the last when lower-case letters follow, which
    starts the word ("APIPath" gives API and Path, "UserName" User and
    Name, "TimeoutMS" Timeout and MS); and two runs of characters of
    different classes (lower case, upper case, digits, others) are two
    words, capitals before lower-case letters apart. *)
Theorem C8_FieldToEnvName :
  (forall (segs : list string) (prefix : string),
      segs <> [] ->
      Forall (fun s => has_byte "." s = false) segs ->
      Forall (fun s => ascii_string s = true) segs ->
      FieldToEnvName (strings_Join segs ".") prefix
      = (prefix ++ strings_Join (map segment_name segs) "_")%string)
  /\ (forall s : string,
        ascii_string s = true ->
        segment_name s = strings_Join (map strings_ToUpper (camelcase.Split s)) "_"
        /\ strings_ToUpper (segment_name s) = segment_name s
        /\ all_bytes (fun c => negb (IsLower c)) (segment_name s) = true)
  /\ (forall (l : string) (ws : list camel_word) (tail : string),
        all_bytes IsLower l = true ->
        Forall camel_word_ok ws ->
        all_bytes IsUpper tail = true ->
        camelcase.Split (l ++ flat (map word_text ws) ++ tail)
        = filter nonempty (l :: flat_map word_pieces ws ++ [tail]))
  /\ (forall (k1 k2 : nat) (r1 r2 : string),
        ascii_string r1 = true -> ascii_string r2 = true ->
        r1 <> "" -> r2 <> "" ->
        all_bytes (fun c => Nat.eqb (camelcase.class_of c) k1) r1 = true ->
        all_bytes (fun c => Nat.eqb (camelcase.class_of c) k2) r2 = true ->
        k1 <> k2 -> ~ (k1 = 2 /\ k2 = 1) ->
        camelcase.Split (r1 ++ r2) = [r1; r2])
  /\ (forall prefix : string,
        FieldToEnvName "APIPath" prefix = (prefix ++ "API_PATH")%string
        /\ FieldToEnvName "CAFile" prefix = (prefix ++ "CA_FILE")%string
        /\ FieldToEnvName "Impersonate.Groups" prefix
           = (prefix ++ "IMPERSONATE_GROUPS")%string).
Proof.
  split; [|split; [|split; [|split]]].
  - intros segs prefix Hne Hdot _. unfold FieldToEnvName.
    change "."%string with (String "."%char "").
    now rewrite strings_Split_Join.
  - intros s _. split; [apply segment_name_words|]. split.
    + unfold segment_name, strings_ToUpper. rewrite map_bytes_map_bytes.
      apply map_bytes_ext, upper_byte_idempotent.
    + apply all_bytes_map_bytes. intros c. now rewrite upper_byte_not_lower.
  - exact camelcase_Split_words.
  - intros k1 k2 r1 r2 _ _. apply camelcase_Split_two_runs.
  - intros prefix. repeat split; reflexivity.
Qed.

End Naming.

(** ** What the runner starts *)

Section Started.

Variable r : ExecPluginRunner.

(** What [Run] does when the environment resolves: the template is
    expanded on the environment of the process at the call, split at
    every space, and the command is started with the arguments of the
    context after those of the template. *)
Lemma Run_starts (plugin : Plugin) (ctx : RunningContext) (w w1 : World)
    (env : list string) (base : string) (fixed : list string) :
  Env (EnvProvider ctx) w = ((env, None), w1) ->
  strings_Split (os.Expand (Command plugin) (fun key => os.lookup key (environ w))) " "
  = base :: fixed ->
  Run r plugin ctx w
  = (child_result w1 (started base (fixed ++ Args ctx) env ctx),
     after_run (started base (fixed ++ Args ctx) env ctx) w1).
Proof.
  intros HE HS.
  unfold Run, ExecPluginRunner_runner, ExecPluginRunner_Run, bind, os.ExpandEnv.
  rewrite HS, HE. cbn [hd tl length].
  assert (Hargs : (if Nat.ltb 1 (S (length fixed)) then fixed else []) = fixed).
  { destruct fixed; reflexivity. }
  rewrite Hargs. reflexivity.
Qed.

(** C4, as the code has it.  [Run] expands the references of the
    template on the environment of the calling process, as it is when
    [Run] is called; it splits the expanded template at every single
    space: the pieces hold no space and, joined by one space, give the
    expanded template back; the first piece is the executable, the others
    are the fixed arguments, and the arguments of the context follow them
    unchanged in the argument vector of the command that is started. *)
Theorem C4_Run_splits_at_spaces (plugin : Plugin) (ctx : RunningContext)
    (w w1 : World) (env : list string) :
  Env (EnvProvider ctx) w = ((env, None), w1) ->
  let expanded :=
    os.Expand (Command plugin) (fun key => os.lookup key (environ w)) in
  exists (base : string) (fixed : list string),
    strings_Split expanded " " = base :: fixed
    /\ strings_Join (base :: fixed) " " = expanded
    /\ Forall (fun t => has_byte " " t = false) (base :: fixed)
    /\ Run r plugin ctx w
       = (child_result w1 (started base (fixed ++ Args ctx) env ctx),
          after_run (started base (fixed ++ Args ctx) env ctx) w1)
    /\ exec.Args (started base (fixed ++ Args ctx) env ctx)
       = base :: fixed ++ Args ctx.
Proof.
  intros HE expanded.
  destruct (strings_Split expanded " ") as [|base fixed] eqn:HS.
  { now apply strings_Split_nonempty in HS. }
  exists base, fixed. repeat split.
  - rewrite <- HS. apply (strings_Join_Split " "%char).
  - rewrite <- HS. apply strings_Split_pieces.
  - now apply Run_starts.
Qed.

End Started.

(** C4 as the design document words it does not hold: a template in
    which a tab separates two words is one token for the runner, the
    executable "echo<TAB>hello", where tokens separated by white space
    are "echo" and "hello". *)
Lemma C4_counterexample :
  let plugin := plugin_of "tabbed" ("echo" ++ String TAB "hello") [] in
  let ctx := ctx_of ["x"] (iface mkEmptyEnvProvider) in
  let expanded := fst (os.ExpandEnv (Command plugin) world0) in
  exists c : exec.Cmd,
    trace (snd (Run mkExecPluginRunner plugin ctx world0)) = [EvRun c]
    /\ exec.Args c = [("echo" ++ String TAB "hello")%string; "x"]
    /\ whitespace_fields expanded ++ Args ctx = ["echo"; "hello"; "x"]
    /\ exec.Args c <> whitespace_fields expanded ++ Args ctx.
Proof.
  eexists. split; [reflexivity|]. split; [reflexivity|].
  split; [reflexivity|]. discriminate.
Qed.

Lemma C4_witness :
  let plugin := plugin_of "tool" "$HOME/bin/tool -v" [] in
  let ctx := ctx_of ["x"; "y z"] (iface mkOSEnvProvider) in
  exists (base : string) (fixed : list string),
    base :: fixed = ["/root/bin/tool"; "-v"]
    /\ Run mkExecPluginRunner plugin ctx world0
       = (None, after_run (started base (fixed ++ ["x"; "y z"]) ["HOME=/root"] ctx)
                          world0).
Proof.
  intros plugin ctx.
  destruct (@C4_Run_splits_at_spaces mkExecPluginRunner plugin ctx
              world0 world0 ["HOME=/root"] eq_refl)
    as (base & fixed & HS & _ & _ & HR & _).
  exists base, fixed. split; [symmetry; exact HS | exact HR].
Defined.

(** ** The binder *)

Lemma Plugin_tree_ind (P : Plugin -> Prop) :
  (forall p, Forall P (Tree p) -> P p) -> forall p, P p.
Proof.
  intros H. fix IH 1. intros p. apply H.
  destruct p as [n s l e c tree d]. cbn [Tree].
  induction tree as [|child tree IHtree]; constructor.
  - apply IH.
  - exact IHtree.
Qed.

Section BinderFacts.

Variable templates_LongDesc : string -> string.
Variable templates_Examples : string -> string.
Variable Duration_String : Z -> string.
Variable DefaultSubCommandRun :
  io.Writer -> CommandRef -> list string -> IO cmdutil.Outcome.
Context {R : Type} {runner_methods : PluginRunner R}.
Variable f : cmdutil.Factory.
Variable runner : R.
Variable in_ : io.Reader.
Variables out errout : io.Writer.

Local Abbreviation bind_plugin p :=
  (cmd.NewCmdForPlugin templates_LongDesc templates_Examples
     Duration_String DefaultSubCommandRun f p runner in_ out errout).

Local Abbreviation closure p :=
  (cmd.NewCmdForPlugin_Run Duration_String DefaultSubCommandRun
     f p runner in_ out errout).

(** The command [NewCmdForPlugin] makes before it adds the children. *)
Local Abbreviation bare p :=
  {| cobra.Use := Name p;
     cobra.Short := ShortDesc p;
     cobra.Long := templates_LongDesc (LongDesc p);
     cobra.Example := templates_Examples (Example p);
     cobra.Run := closure p;
     cobra.commands := [] |}.

Lemma NewCmdForPlugin_eq (p : Plugin) :
  bind_plugin p
  = if negb (IsValid p) then cobra.Returns None
    else add_all (map (fun q => bind_plugin q) (Tree p)) (bare p).
Proof.
  destruct p as [n s l e c tree d].
  cbn [cmd.NewCmdForPlugin].
  destruct (negb (IsValid _)); [reflexivity|].
  cbn [Tree].
  match goal with
  | |- _ ?c0 = add_all _ ?c1 => change c1 with c0; generalize c0
  end.
  induction tree as [|child tree IH]; intros c0; [reflexivity|].
  cbn [map add_all].
  destruct (cmd.NewCmdForPlugin _ _ _ _ _ child _ _ _ _) as [|x]; [reflexivity|].
  destruct (cobra.AddCommand c0 x) as [|c1]; [reflexivity|].
  apply IH.
Qed.

Lemma add_all_keeps (rs : list (cobra.may_panic (option cobra.Command))) :
  forall c0 c, add_all rs c0 = cobra.Returns (Some c) ->
  cobra.Use c = cobra.Use c0 /\ cobra.Run c = cobra.Run c0.
Proof.
  induction rs as [|r rs IH]; intros c0 c H; cbn in H.
  - injection H as <-. now split.
  - destruct r as [|[x|]]; cbn in H; try discriminate.
    apply IH in H. exact H.
Qed.

(** A bound command carries the name of its descriptor and the closure
    made for it. *)
Lemma bound_command (p : Plugin) (c : cobra.Command) :
  bind_plugin p = cobra.Returns (Some c) ->
  IsValid p = true /\ cobra.Use c = Name p /\ cobra.Run c = closure p.
Proof.
  rewrite NewCmdForPlugin_eq. destruct (IsValid p); cbn [negb]; [|discriminate].
  intros H. apply add_all_keeps in H. now split.
Qed.

(** With an empty template the closure is [DefaultSubCommandRun], whatever
    the runner. *)
Lemma closure_without_template (p : Plugin) (c : CommandRef)
    (args : list string) (w : World) :
  Command p = "" ->
  closure p c args w = DefaultSubCommandRun errout c args w.
Proof.
  intros H. unfold cmd.NewCmdForPlugin_Run. now rewrite H.
Qed.

Lemma closure_with_template (p : Plugin) (c : CommandRef)
    (args : list string) (w : World) (cfg : restclient.Config) :
  Command p <> "" ->
  cmdutil.ClientConfig f = (cfg, None) ->
  closure p c args w
  = (let (err, w') :=
       Run runner p
         {| In := in_; Out := out; ErrOut := errout; Args := args;
            EnvProvider := iface (providers_of Duration_String f p c cfg);
            WorkingDir := Dir p |} w in
     (outcome_of err, w')).
Proof.
  intros Hne Hcfg. unfold cmd.NewCmdForPlugin_Run.
  destruct (Command p) as [|a s]; [congruence|].
  cbn [String.length Nat.eqb]. rewrite Hcfg. cbn [cmdutil.CheckErr].
  unfold bind, providers_of.
  destruct (Run runner _ _ w) as [[e|] w']; reflexivity.
Qed.

Lemma cmd_shape_eq (c : cobra.Command) :
  cmd_shape c = Node (cobra.Use c) (map cmd_shape (cobra.commands c)).
Proof. now destruct c. Qed.

Lemma plugin_shape_eq (p : Plugin) :
  plugin_shape p = Node (Name p) (map plugin_shape (Tree p)).
Proof. now destruct p. Qed.

Lemma all_valid_eq (p : Plugin) :
  all_valid p = IsValid p && forallb all_valid (Tree p).
Proof. now destruct p. Qed.

(** The loop over children that were all bound adds their commands, in
    their order, after the subcommands already there. *)
Lemma add_all_shape (tree : list Plugin) :
  Forall (fun child => exists x, bind_plugin child = cobra.Returns (Some x)
                                 /\ cmd_shape x = plugin_shape child) tree ->
  forall c0, exists c,
    add_all (map (fun q => bind_plugin q) tree) c0 = cobra.Returns (Some c)
    /\ cobra.Use c = cobra.Use c0
    /\ map cmd_shape (cobra.commands c)
       = map cmd_shape (cobra.commands c0) ++ map plugin_shape tree.
Proof.
  induction 1 as [|child tree (x & Hx & Hshape) _ IH]; intros c0.
  - exists c0. cbn. now rewrite app_nil_r.
  - cbn [map add_all]. rewrite Hx. cbn [cobra.AddCommand].
    destruct (IH {| cobra.Use := cobra.Use c0; cobra.Short := cobra.Short c0;
                    cobra.Long := cobra.Long c0;
                    cobra.Example := cobra.Example c0;
                    cobra.Run := cobra.Run c0;
                    cobra.commands := cobra.commands c0 ++ [x] |})
      as (c & Hc & Huse & Hsub).
    exists c. split; [exact Hc|]. split; [exact Huse|].
    rewrite Hsub. cbn [cobra.commands].
    rewrite map_app, <- app_assoc. cbn [map app]. now rewrite Hshape.
Qed.

(** A tree of valid descriptors is bound to a tree of commands of the
    same names and the same nesting. *)
Lemma bind_all_valid (p : Plugin) :
  all_valid p = true ->
  exists c, bind_plugin p = cobra.Returns (Some c)
            /\ cmd_shape c = plugin_shape p.
Proof.
  induction p as [p IH] using Plugin_tree_ind.
  rewrite all_valid_eq. intros H. apply andb_prop in H as [Hv Hall].
  rewrite NewCmdForPlugin_eq, Hv. cbn [negb].
  destruct (@add_all_shape (Tree p)) with (c0 := bare p) as (c & Hc & Huse & Hsub).
  { rewrite forallb_forall in Hall. rewrite Forall_forall in IH |- *.
    intros child Hin. apply IH; [exact Hin | now apply Hall]. }
  exists c. split; [exact Hc|].
  rewrite cmd_shape_eq, plugin_shape_eq, Huse, Hsub. reflexivity.
Qed.

(** C6, as the code has it.  Binding a descriptor whose name is empty
    returns no command.
    Binding a descriptor named "status" that has a template and no
    children returns one command, named "status", without subcommands.
    Binding a tree of valid descriptors returns a tree of commands with
    the names and the nesting of the descriptors: the children are bound
    in their order, and so are theirs. *)
Theorem C6_binding :
  (forall p : Plugin, Name p = "" -> bind_plugin p = cobra.Returns None)
  /\ (forall p : Plugin,
        Name p = "status" -> Command p <> "" -> Tree p = [] ->
        exists c, bind_plugin p = cobra.Returns (Some c)
                  /\ cobra.Use c = "status" /\ cobra.commands c = [])
  /\ (forall p : Plugin,
        all_valid p = true ->
        exists c, bind_plugin p = cobra.Returns (Some c)
                  /\ cmd_shape c = plugin_shape p).
Proof.
  split; [|split].
  - intros p Hn. rewrite NewCmdForPlugin_eq. unfold IsValid. now rewrite Hn.
  - intros p Hn _ Ht. rewrite NewCmdForPlugin_eq. unfold IsValid.
    rewrite Hn, Ht. cbn. eexists. split; [reflexivity|]. now split.
  - exact bind_all_valid.
Qed.

(** C5, as the code has it.  Invoking a bound command whose descriptor
    has a template, when the connection configuration resolves, calls
    the runner with a context whose provider is the composite of six
    providers, in this order: caller, OS environment, descriptor, flags
    of the invoking command, attributes of the factory (the current
    namespace), connection configuration. *)
Theorem C5_providers_of_invocation (p : Plugin) (c : cobra.Command)
    (cfg : restclient.Config) (invoked : CommandRef) (args : list string)
    (w : World) :
  bind_plugin p = cobra.Returns (Some c) ->
  Command p <> "" ->
  cmdutil.ClientConfig f = (cfg, None) ->
  exists ctx : RunningContext,
    EnvProvider ctx
    = iface (T := MultiRunningEnvProvider)
        [ iface mkPluginCallerEnvProvider;
          iface mkOSEnvProvider;
          iface {| descriptor_Plugin := Some p |};
          iface (H := cmd.flagsPluginEnvProvider_provider)
                {| cmd.flags_cmd := invoked |};
          iface (H := cmd.factoryAttrsPluginEnvProvider_provider)
                {| cmd.attrs_factory := f |};
          iface (H := cmd.restClientConfigPluginEnvProvider_provider Duration_String)
                {| cmd.rest_cfg := cfg |} ]
    /\ Args ctx = args
    /\ cobra.Run c invoked args w
       = (let (err, w') := Run runner p ctx w in (outcome_of err, w')).
Proof.
  intros Hb Hne Hcfg. apply bound_command in Hb as (_ & _ & ->).
  exists {| In := in_; Out := out; ErrOut := errout; Args := args;
            EnvProvider := iface (providers_of Duration_String f p invoked cfg);
            WorkingDir := Dir p |}.
  split; [reflexivity|]. split; [reflexivity|].
  now apply closure_with_template.
Qed.

(** C10, as the code has it.  Invoking a bound command whose descriptor
    has an empty template does what [DefaultSubCommandRun] does, whatever
    the runner: the runner is not called.  With a template (and a
    connection configuration) the runner is called with the descriptor.
    Splitting a template always gives a first token, the executable, and
    the tokens after it. *)
Theorem C10_runner_needs_template :
  (forall (p : Plugin) (c : cobra.Command) (invoked : CommandRef)
          (args : list string) (w : World),
      bind_plugin p = cobra.Returns (Some c) ->
      Command p = "" ->
      cobra.Run c invoked args w = DefaultSubCommandRun errout invoked args w)
  /\ (forall (p : Plugin) (c : cobra.Command) (cfg : restclient.Config)
             (invoked : CommandRef) (args : list string) (w : World),
        bind_plugin p = cobra.Returns (Some c) ->
        Command p <> "" ->
        cmdutil.ClientConfig f = (cfg, None) ->
        cobra.Run c invoked args w
        = (let (err, w') :=
             Run runner p
               {| In := in_; Out := out; ErrOut := errout; Args := args;
                  EnvProvider := iface (providers_of Duration_String f p invoked cfg);
                  WorkingDir := Dir p |} w in
           (outcome_of err, w')))
  /\ (forall expanded : string,
        exists (base : string) (fixed : list string),
          strings_Split expanded " " = base :: fixed).
Proof.
  split; [|split].
  - intros p c invoked args w Hb He.
    apply bound_command in Hb as (_ & _ & ->).
    now apply closure_without_template.
  - intros p c cfg invoked args w Hb Hne Hcfg.
    apply bound_command in Hb as (_ & _ & ->).
    now apply closure_with_template.
  - intros expanded.
    destruct (strings_Split expanded " ") as [|base fixed] eqn:HS.
    + now apply strings_Split_nonempty in HS.
    + now exists base, fixed.
Qed.

End BinderFacts.

(** ** The properties at concrete inputs *)

(** C5 as the design document words it does not hold: the environment
    of the child of an invocation has the entry of the current
    namespace, which the fifth of the six providers makes and the
    composite of the five providers named there does not. *)
Lemma C5_counterexample :
  exists (c : cobra.Command) (child : exec.Cmd),
    bind0 status_plugin = cobra.Returns (Some c)
    /\ trace (snd (cobra.Run c ref0 [] world0)) = [EvRun child]
    /\ existsb (String.eqb "KUBECTL_PLUGINS_CURRENT_NAMESPACE=default")
               (exec.Env child) = true
    /\ existsb (String.eqb "KUBECTL_PLUGINS_CURRENT_NAMESPACE=default")
               (fst (fst (Env (five_providers status_plugin ref0 config0) world0)))
       = false
    /\ length (exec.Env child)
       = S (length (fst (fst (Env (five_providers status_plugin ref0 config0) world0))))
    /\ exec.Env child
       <> fst (fst (Env (five_providers status_plugin ref0 config0) world0)).
Proof.
  eexists. eexists. split; [reflexivity|]. split; [reflexivity|].
  split; [vm_compute; reflexivity|]. split; [vm_compute; reflexivity|].
  split; [vm_compute; reflexivity|].
  intros H. apply (f_equal (@length string)) in H. vm_compute in H. discriminate H.
Qed.

(** C10 as worded does not hold: a template that starts with a space is
    not empty, the runner is called, and the executable it starts is the
    empty string. *)
Lemma C10_counterexample :
  let plugin := plugin_of "lead" " echo" [] in
  Command plugin <> ""
  /\ exists (c : cobra.Command) (child : exec.Cmd),
       bind0 plugin = cobra.Returns (Some c)
       /\ trace (snd (cobra.Run c ref0 [] world0)) = [EvRun child]
       /\ exec.Path child = ""
       /\ exec.Args child = [""; "echo"].
Proof.
  split; [discriminate|].
  eexists. eexists. split; [reflexivity|]. split; [reflexivity|].
  split; reflexivity.
Qed.

Lemma C1_witness :
  Env (T := MultiRunningEnvProvider)
    [ iface mkOSEnvProvider;
      iface {| descriptor_Plugin := None |};
      iface mkEmptyEnvProvider ] world0
  = (([], Some "plugin not present to extract env"), world0).
Proof.
  apply (@C1_composite_returns_first_failure
           (iface mkOSEnvProvider) (iface {| descriptor_Plugin := None |})
           (iface mkEmptyEnvProvider) world0 world0 world0
           ["HOME=/root"] [] "plugin not present to extract env");
    reflexivity.
Defined.

Lemma C2_witness :
  Env (T := MultiRunningEnvProvider)
    [ iface mkPluginCallerEnvProvider; iface mkOSEnvProvider ] world0
  = ((["KUBECTL_PLUGINS_CALLER=/usr/local/bin/kubectl"] ++ ["HOME=/root"], None),
     world0).
Proof.
  apply (@C2_composite_concatenates
           (iface mkPluginCallerEnvProvider) (iface mkOSEnvProvider)
           world0 world0 world0); reflexivity.
Defined.

Lemma C3_witness :
  Run mkExecPluginRunner status_plugin
      (ctx_of ["x"] (iface {| descriptor_Plugin := None |})) world0
  = (Some "plugin not present to extract env", world0)
  /\ trace (snd (Run mkExecPluginRunner status_plugin
                   (ctx_of ["x"] (iface {| descriptor_Plugin := None |})) world0))
     = [].
Proof.
  apply (@C3_Run_fails_with_env_failure mkExecPluginRunner status_plugin
           (ctx_of ["x"] (iface {| descriptor_Plugin := None |}))
           world0 world0 []).
  reflexivity.
Defined.

Lemma C9_witness :
  Env {| descriptor_Plugin := Some status_plugin |} world0
  = (([ "KUBECTL_PLUGINS_DESCRIPTOR_NAME=status";
        "KUBECTL_PLUGINS_DESCRIPTOR_SHORT_DESC=short";
        "KUBECTL_PLUGINS_DESCRIPTOR_LONG_DESC=long";
        "KUBECTL_PLUGINS_DESCRIPTOR_EXAMPLE=";
        "KUBECTL_PLUGINS_DESCRIPTOR_COMMAND=echo hello" ], None), world0).
Proof.
  apply (proj2 (C9_descriptor_provider
                  {| descriptor_Plugin := Some status_plugin |} world0)
               status_plugin).
  reflexivity.
Defined.

Lemma C8_witness :
  FieldToEnvName "Impersonate.UserName" "KUBECTL_PLUGINS_REST_CLIENT_CONFIG_"
  = ("KUBECTL_PLUGINS_REST_CLIENT_CONFIG_"
     ++ strings_Join [segment_name "Impersonate"; segment_name "UserName"] "_")%string
  /\ segment_name "UserName"
     = strings_Join (map strings_ToUpper (camelcase.Split "UserName")) "_"
  /\ camelcase.Split "UserName" = ["User"; "Name"]
  /\ camelcase.Split "userAPIPathMS" = ["user"; "API"; "Path"; "MS"]
  /\ camelcase.Split "v1" = ["v"; "1"].
Proof.
  destruct C8_FieldToEnvName as (Hsegs & Hname & Hwords & Hruns & _).
  split; [|split; [|split; [|split]]].
  - apply (Hsegs ["Impersonate"; "UserName"] "KUBECTL_PLUGINS_REST_CLIENT_CONFIG_").
    + discriminate.
    + repeat constructor.
    + repeat constructor.
  - apply (Hname "UserName"). reflexivity.
  - apply (Hwords "" [("", "U"%char, "ser"); ("", "N"%char, "ame")] "").
    + reflexivity.
    + repeat constructor; discriminate.
    + reflexivity.
  - apply (Hwords "user" [("API", "P"%char, "ath")] "MS").
    + reflexivity.
    + repeat constructor; discriminate.
    + reflexivity.
  - apply (Hruns 1 3 "v" "1"); try reflexivity; try discriminate.
    intros [H _]. discriminate H.
Defined.

Lemma C7_witness :
  exists body : string,
    FlagToEnvName "--log-flush-frequency" "KUBECTL_PLUGINS_GLOBAL_FLAG_"
    = ("KUBECTL_PLUGINS_GLOBAL_FLAG_" ++ body)%string
    /\ body = "LOG_FLUSH_FREQUENCY".
Proof.
  destruct (@C7_FlagToEnvName "--log-flush-frequency"
              "KUBECTL_PLUGINS_GLOBAL_FLAG_" eq_refl)
    as (body & Hres & _ & Hbody & _).
  exists body. split; [exact Hres | exact Hbody].
Defined.

(** C6 as worded does not hold for every valid descriptor: a valid
    descriptor with a child whose name is empty is not bound at all.
    Binding the child returns nil, the parent hands the nil to
    [AddCommand], and binding panics: the child is not left out silently,
    and no tree of commands is made. *)
Lemma C6_counterexample :
  IsValid broken_plugin = true
  /\ map Name (Tree broken_plugin) = ["status"; ""]
  /\ map bind0 (Tree broken_plugin)
     = [bind0 status_plugin; cobra.Returns None]
  /\ bind0 broken_plugin = cobra.Panics
  /\ ~ (exists c, bind0 broken_plugin = cobra.Returns (Some c)).
Proof.
  split; [reflexivity|]. split; [reflexivity|]. split; [reflexivity|].
  split; [reflexivity|]. intros [c Hc]. discriminate Hc.
Defined.

Lemma C6_witness :
  bind0 (plugin_of "" "echo hello" []) = cobra.Returns None
  /\ (exists c, bind0 status_plugin = cobra.Returns (Some c)
                /\ cobra.Use c = "status" /\ cobra.commands c = [])
  /\ (exists c, bind0 (plugin_of "cluster" "" [status_plugin; plugin_of "logs" "tail" []])
                = cobra.Returns (Some c)
                /\ cmd_shape c
                   = Node "cluster" [Node "status" []; Node "logs" []]).
Proof.
  destruct (@C6_binding (fun s => s) (fun s => s) Duration_String0
              DefaultSubCommandRun0 _ _ factory0 mkExecPluginRunner 0 1 2)
    as (Hempty & Hstatus & Htree).
  split; [|split].
  - apply Hempty. reflexivity.
  - apply Hstatus; [reflexivity | discriminate | reflexivity].
  - apply (Htree (plugin_of "cluster" "" [status_plugin; plugin_of "logs" "tail" []])).
    reflexivity.
Defined.

Lemma C5_witness :
  exists (c : cobra.Command) (ctx : RunningContext),
    bind0 status_plugin = cobra.Returns (Some c)
    /\ EnvProvider ctx = iface (providers_of Duration_String0 factory0
                                  status_plugin ref0 config0)
    /\ cobra.Run c ref0 ["x"] world0
       = (let (err, w') := Run mkExecPluginRunner status_plugin ctx world0 in
          (outcome_of err, w')).
Proof.
  assert (Hb : exists c, bind0 status_plugin = cobra.Returns (Some c))
    by (eexists; reflexivity).
  destruct Hb as [c Hc]. exists c.
  destruct (@C5_providers_of_invocation (fun s => s) (fun s => s)
              Duration_String0 DefaultSubCommandRun0 _ _ factory0
              mkExecPluginRunner 0 1 2 status_plugin c config0 ref0 ["x"] world0)
    as (ctx & Hp & _ & Hrun).
  - exact Hc.
  - discriminate.
  - reflexivity.
  - exists ctx. split; [exact Hc|]. split; [exact Hp | exact Hrun].
Defined.

Lemma C10_witness :
  exists c : cobra.Command,
    bind0 (plugin_of "group" "" [status_plugin]) = cobra.Returns (Some c)
    /\ cobra.Run c ref0 [] world0 = (cmdutil.Returned, world0).
Proof.
  assert (Hb : exists c, bind0 (plugin_of "group" "" [status_plugin])
                         = cobra.Returns (Some c))
    by (eexists; reflexivity).
  destruct Hb as [c Hc]. exists c. split; [exact Hc|].
  destruct (@C10_runner_needs_template (fun s => s) (fun s => s)
              Duration_String0 DefaultSubCommandRun0 _ _ factory0
              mkExecPluginRunner 0 1 2) as (Hnone & _ & _).
  apply (Hnone (plugin_of "group" "" [status_plugin]) c ref0 [] world0 Hc).
  reflexivity.
Defined.

(* ================================================================== *)
(** * Further properties of the code *)
(* ================================================================== *)

(** ** The composite provider, for lists of any length *)

Section CompositeAnyLength.

Implicit Types (p : EnvProviderValue) (ps qs : MultiRunningEnvProvider).
Implicit Types (w : World) (env acc : list string).

(** What the loop does with what it gathered before: on success it is
    kept in front, on failure it is dropped. *)
Lemma Multi_loop_acc ps : forall acc w,
  Multi_loop ps acc w
  = match Multi_loop ps [] w with
    | ((env, None), w') => ((acc ++ env, None), w')
    | ((_, Some e), w') => (([], Some e), w')
    end.
Proof.
  induction ps as [|p ps IH]; intros acc w.
  - cbn. now rewrite app_nil_r.
  - cbn [Multi_loop]. unfold bind.
    destruct (Env p w) as [[pEnv [e|]] w1]; [reflexivity|].
    rewrite (IH (acc ++ pEnv)), (IH ([] ++ pEnv)). cbn [app].
    destruct (Multi_loop ps [] w1) as [[env [e|]] w2]; [reflexivity|].
    now rewrite app_assoc.
Qed.

Lemma Multi_loop_app ps qs : forall acc w,
  Multi_loop (ps ++ qs) acc w
  = match Multi_loop ps acc w with
    | ((env, None), w') => Multi_loop qs env w'
    | ((_, Some e), w') => (([], Some e), w')
    end.
Proof.
  induction ps as [|p ps IH]; intros acc w; [reflexivity|].
  cbn [app Multi_loop]. unfold bind.
  destruct (Env p w) as [[pEnv [e|]] w1]; [reflexivity|].
  apply IH.
Qed.

Lemma Multi_loop_cases ps : forall w,
  (exists env w', Succeed ps w env w'
                  /\ Multi_loop ps [] w = ((env, None), w'))
  \/ (exists pre p post env w1 pEnv e w2,
        ps = pre ++ p :: post
        /\ Succeed pre w env w1
        /\ Env p w1 = ((pEnv, Some e), w2)
        /\ Multi_loop ps [] w = (([], Some e), w2)).
Proof.
  induction ps as [|p ps IH]; intros w.
  - left. exists [], w. split; [constructor | reflexivity].
  - destruct (Env p w) as [[pEnv [e|]] w1] eqn:Hp.
    + right. exists [], p, ps, [], w, pEnv, e, w1.
      split; [reflexivity|]. split; [constructor|]. split; [exact Hp|].
      eapply Multi_loop_err; exact Hp.
    + erewrite Multi_loop_ok by exact Hp. rewrite Multi_loop_acc.
      destruct (IH w1) as [(env & w' & Hs & Hr)
                          |(pre & q & post & env & w2 & qEnv & e & w3 & -> & Hs & Hq & Hr)].
      * left. exists (pEnv ++ env), w'. split; [econstructor; eassumption|].
        now rewrite Hr.
      * right. exists (p :: pre), q, post, (pEnv ++ env), w2, qEnv, e, w3.
        split; [reflexivity|]. split; [econstructor; eassumption|].
        split; [exact Hq|]. now rewrite Hr.
Qed.

(** X1. The composite either succeeds, every provider having succeeded
    in turn, or fails with an empty result and the failure of the first
    provider that failed, the providers after it not being asked. *)
Theorem Multi_Env_outcome ps w :
  (exists env w', Succeed ps w env w'
                  /\ Env (T := MultiRunningEnvProvider) ps w = ((env, None), w'))
  \/ (exists pre p post env w1 pEnv e w2,
        ps = pre ++ p :: post
        /\ Succeed pre w env w1
        /\ Env p w1 = ((pEnv, Some e), w2)
        /\ Env (T := MultiRunningEnvProvider) ps w = (([], Some e), w2)).
Proof. exact (Multi_loop_cases ps w). Qed.

(** X2. A composite that fails returns no entry at all, whichever
    provider failed and whatever was gathered before. *)
Theorem Multi_Env_failure_is_empty ps w env e w' :
  Env (T := MultiRunningEnvProvider) ps w = ((env, Some e), w') -> env = [].
Proof.
  change (Env (T := MultiRunningEnvProvider) ps w) with (Multi_loop ps [] w).
  destruct (Multi_loop_cases ps w) as [(env0 & w0 & _ & Hr)|(pre & q & post & ? & ? & ? & e0 & w2 & _ & _ & _ & Hr)];
    rewrite Hr; now intros [= <- _ _].
Qed.

(** X3. In a list of any length, when the providers before one succeed
    and that one fails, the composite returns its failure and an empty
    result, and the world is as the failing provider left it. *)
Theorem Multi_Env_first_failure pre p post w env w1 pEnv e w2 :
  Succeed pre w env w1 ->
  Env p w1 = ((pEnv, Some e), w2) ->
  Env (T := MultiRunningEnvProvider) (pre ++ p :: post) w = (([], Some e), w2).
Proof.
  intros Hs Hp. eapply Multi_loop_first_failure; eassumption.
Qed.

(** X4. When every provider of a list of any length succeeds, the
    composite returns their entries one after the other, in the order of
    the list. *)
Theorem Multi_Env_all_succeed ps w env w' :
  Succeed ps w env w' ->
  Env (T := MultiRunningEnvProvider) ps w = ((env, None), w').
Proof.
  intros Hs. now apply (@Multi_loop_succeed ps [] w env w').
Qed.

(** X5. A composite inside a composite can be flattened: the list with
    the inner composite at some place and the list with the providers of
    the inner composite at that place return the same. *)
Theorem Multi_Env_flatten pre ps post w :
  Env (T := MultiRunningEnvProvider) (pre ++ iface ps :: post) w
  = Env (T := MultiRunningEnvProvider) (pre ++ ps ++ post) w.
Proof.
  change (Multi_loop (pre ++ iface ps :: post) [] w
          = Multi_loop (pre ++ ps ++ post) [] w).
  rewrite !Multi_loop_app.
  destruct (Multi_loop pre [] w) as [[env [e|]] w1]; [reflexivity|].
  rewrite Multi_loop_app.
  cbn [Multi_loop]. unfold bind.
  change (Env (iface ps) w1) with (Multi_loop ps [] w1).
  rewrite (Multi_loop_acc ps env).
  destruct (Multi_loop ps [] w1) as [[env' [e|]] w2]; reflexivity.
Qed.

(** X6. The empty provider changes nothing wherever it stands in a
    composite. *)
Theorem Multi_Env_empty_provider pre post w :
  Env (T := MultiRunningEnvProvider) (pre ++ iface mkEmptyEnvProvider :: post) w
  = Env (T := MultiRunningEnvProvider) (pre ++ post) w.
Proof.
  change (Multi_loop (pre ++ iface mkEmptyEnvProvider :: post) [] w
          = Multi_loop (pre ++ post) [] w).
  rewrite !Multi_loop_app.
  destruct (Multi_loop pre [] w) as [[env [e|]] w1]; [reflexivity|].
  cbn [Multi_loop]. unfold bind. cbn. now rewrite app_nil_r.
Qed.

(** A composite of providers that only read only reads. *)
Lemma Multi_loop_read_only ps :
  Forall ReadOnly ps -> forall acc w, snd (Multi_loop ps acc w) = w.
Proof.
  induction 1 as [|p ps Hp _ IH]; intros acc w; [reflexivity|].
  cbn [Multi_loop]. unfold bind.
  specialize (Hp w). destruct (Env p w) as [[pEnv [e|]] w1]; cbn in Hp; subst w1.
  - reflexivity.
  - apply IH.
Qed.

(** X7. The providers of runner.go only read the world, and a composite
    of providers that only read only reads: resolving an environment
    with them starts no process. *)
Theorem runner_providers_read_only :
  ReadOnly (iface mkPluginCallerEnvProvider)
  /\ ReadOnly (iface mkOSEnvProvider)
  /\ ReadOnly (iface mkEmptyEnvProvider)
  /\ (forall d : PluginDescriptorEnvProvider, ReadOnly (iface d))
  /\ (forall ps : MultiRunningEnvProvider,
        Forall ReadOnly ps -> ReadOnly (iface ps)).
Proof.
  split; [|split; [|split; [|split]]].
  - intros w. cbn. unfold bind, os.Executable.
    now destruct (executable w) as [caller [e|]].
  - intros w. reflexivity.
  - intros w. reflexivity.
  - intros [[plugin|]] w; reflexivity.
  - intros ps Hps w. now apply Multi_loop_read_only.
Qed.

End CompositeAnyLength.

(** ** More on the naming transform *)

Section NamingMore.

Lemma TrimPrefix_marker (n : string) :
  strings_TrimPrefix ("--" ++ n) "--" = n.
Proof.
  unfold strings_TrimPrefix.
  change (String.prefix "--" ("--" ++ n)) with (String.prefix "" n).
  now destruct n.
Qed.

Lemma TrimPrefix_no_marker (n : string) :
  String.prefix "--" n = false -> strings_TrimPrefix n "--" = n.
Proof. unfold strings_TrimPrefix. now intros ->. Qed.

Lemma FlagToEnvName_body (n prefix : string) :
  FlagToEnvName n prefix
  = (prefix ++ map_bytes flag_byte (strings_TrimPrefix n "--"))%string.
Proof.
  unfold FlagToEnvName, strings_Replace, strings_ToUpper.
  rewrite map_bytes_map_bytes. f_equal.
  apply map_bytes_ext, upper_byte_dash.
Qed.

Lemma flag_byte_upper (c : ascii) : flag_byte (upper_byte c) = flag_byte c.
Proof. destruct c as [[] [] [] [] [] [] [] []]; reflexivity. Qed.

Lemma flag_byte_underscore (c : ascii) :
  flag_byte (if Ascii.eqb c "-" then "_"%char else c) = flag_byte c.
Proof. destruct c as [[] [] [] [] [] [] [] []]; reflexivity. Qed.

Lemma prefix_marker_map (g : ascii -> ascii) (n : string) :
  (forall c, Ascii.eqb (g c) "-" = Ascii.eqb c "-") ->
  String.prefix "--" (map_bytes g n) = String.prefix "--" n.
Proof.
  intros Hg.
  assert (E : forall (a b : ascii) (x : bool),
             (if ascii_dec a b then x else false) = Ascii.eqb b a && x).
  { intros a b x. destruct (ascii_dec a b) as [->|Hab].
    - now rewrite Ascii.eqb_refl.
    - symmetry. apply andb_false_intro1, Ascii.eqb_neq. congruence. }
  destruct n as [|c [|d n]]; [reflexivity| |].
  - change (String.prefix "--" (map_bytes g (String c "")))
      with (if ascii_dec "-" (g c) then false else false).
    change (String.prefix "--" (String c ""))
      with (if ascii_dec "-" c then false else false).
    now destruct (ascii_dec "-" (g c)), (ascii_dec "-" c).
  - assert (N : forall t, String.prefix "" t = true) by now intros [|? ?].
    change (String.prefix "--" (map_bytes g (String c (String d n))))
      with (if ascii_dec "-" (g c)
            then (if ascii_dec "-" (g d)
                  then String.prefix "" (map_bytes g n) else false)
            else false).
    change (String.prefix "--" (String c (String d n)))
      with (if ascii_dec "-" c
            then (if ascii_dec "-" d then String.prefix "" n else false)
            else false).
    rewrite !N, !E, !Hg. reflexivity.
Qed.

(** X8. The option marker is optional and only stripped once.  For a
    name of ASCII bytes, the flag "--" followed by the name gives the
    prefix followed by the name with every dash turned into an underscore
    and every letter in upper case: of further dashes at the start none is
    stripped.  And a name that does not itself start with "--" gives the
    same variable name with and without the marker. *)
Theorem FlagToEnvName_marker (n prefix : string) :
  (ascii_string n = true ->
   FlagToEnvName ("--" ++ n) prefix = (prefix ++ map_bytes flag_byte n)%string)
  /\ (String.prefix "--" n = false ->
      FlagToEnvName ("--" ++ n) prefix = FlagToEnvName n prefix).
Proof.
  split.
  - intros _. now rewrite FlagToEnvName_body, TrimPrefix_marker.
  - intros Hn. now rewrite !FlagToEnvName_body, TrimPrefix_marker, TrimPrefix_no_marker.
Qed.

(** X9. Flag names that differ only in the case of their letters get the
    same variable name: the transform is blind to case. *)
Theorem FlagToEnvName_case_blind (n prefix : string) :
  FlagToEnvName (strings_ToUpper n) prefix = FlagToEnvName n prefix.
Proof.
  rewrite !FlagToEnvName_body. f_equal.
  unfold strings_TrimPrefix, strings_ToUpper.
  rewrite prefix_marker_map.
  2:{ intros c. destruct c as [[] [] [] [] [] [] [] []]; reflexivity. }
  destruct (String.prefix "--" n).
  - assert (D : forall k s, drop k (map_bytes upper_byte s)
                            = map_bytes upper_byte (drop k s)).
    { induction k as [|k IH]; intros [|c s]; cbn; auto. }
    cbn [String.length]. rewrite D, map_bytes_map_bytes.
    apply map_bytes_ext, flag_byte_upper.
  - rewrite map_bytes_map_bytes. apply map_bytes_ext, flag_byte_upper.
Qed.

Lemma has_byte_drop (c : ascii) (k : nat) : forall s,
  has_byte c s = false -> has_byte c (drop k s) = false.
Proof.
  induction k as [|k IH]; intros [|d s] H; cbn; auto.
  cbn in H. apply orb_false_elim in H as [_ H]. now apply IH.
Qed.

Lemma has_byte_app (c : ascii) (s t : string) :
  has_byte c (s ++ t) = has_byte c s || has_byte c t.
Proof.
  induction s as [|d s IH]; cbn; [reflexivity|]. now rewrite IH, orb_assoc.
Qed.

Lemma flag_byte_keeps_eq (c : ascii) :
  Ascii.eqb (flag_byte c) "=" = Ascii.eqb c "=".
Proof. destruct c as [[] [] [] [] [] [] [] []]; reflexivity. Qed.

Lemma has_byte_map_bytes (c : ascii) (g : ascii -> ascii) (s : string) :
  (forall d, Ascii.eqb (g d) c = Ascii.eqb d c) ->
  has_byte c (map_bytes g s) = has_byte c s.
Proof.
  intros Hg. induction s as [|d s IH]; cbn; [reflexivity|].
  now rewrite Hg, IH.
Qed.

Lemma entry_key_value (k v : string) :
  has_byte "=" k = false ->
  entry_key (Sprintf_eq k v) = k /\ entry_value (Sprintf_eq k v) = v.
Proof.
  unfold Sprintf_eq. induction k as [|c k IH]; cbn.
  - now intros _.
  - intros H. apply orb_false_elim in H as [Hc Hk]. rewrite Hc.
    destruct (IH Hk) as [E1 E2]. cbn in E1, E2. now rewrite E1, E2.
Qed.

(** X10. The entry of a flag reads back: when neither the prefix nor
    the name of the flag holds "=", the key of the entry is the variable
    name of the flag and its value is the text of the flag's value,
    whatever that text holds. *)
Theorem FlagToEnv_reads_back (flag : pflag.Flag) (prefix : string) :
  has_byte "=" prefix = false ->
  has_byte "=" (pflag.Name flag) = false ->
  entry_key (FlagToEnv flag prefix) = FlagToEnvName (pflag.Name flag) prefix
  /\ entry_value (FlagToEnv flag prefix) = pflag.Value_String flag.
Proof.
  intros Hp Hn. unfold FlagToEnv. apply entry_key_value.
  rewrite FlagToEnvName_body, has_byte_app, Hp. cbn [orb].
  rewrite has_byte_map_bytes by apply flag_byte_keeps_eq.
  unfold strings_TrimPrefix.
  destruct (String.prefix "--" (pflag.Name flag)); [|exact Hn].
  now apply has_byte_drop.
Qed.

End NamingMore.

(** ** The providers of plugin.go *)

Section ProvidersMore.

Variable Duration_String : Z -> string.

Lemma fold_left_snoc_map (A B : Type) (g : A -> B) (l : list A) : forall acc,
  fold_left (fun env a => env ++ [g a]) l acc = acc ++ map g l.
Proof.
  induction l as [|a l IH]; intros acc; cbn.
  - now rewrite app_nil_r.
  - now rewrite IH, <- app_assoc.
Qed.

Lemma flagsPluginEnvProvider_Env_aux (c : CommandRef) (w : World) :
  Env (iface (H := cmd.flagsPluginEnvProvider_provider) {| cmd.flags_cmd := c |}) w
  = ((map (fun flag => FlagToEnv flag "KUBECTL_PLUGINS_GLOBAL_FLAG_") (ref_Flags c),
      None), w).
Proof.
  change (Env (iface (H := cmd.flagsPluginEnvProvider_provider) {| cmd.flags_cmd := c |}) w)
    with (cmd.flagsPluginEnvProvider_provider {| cmd.flags_cmd := c |} w).
  unfold cmd.flagsPluginEnvProvider_provider, ret. cbn [cmd.flags_cmd].
  now rewrite fold_left_snoc_map.
Qed.

(** X11. The flags provider never fails and only reads: it returns one
    entry for every flag the command visits, set or not, in the order of
    the visit, each made by [FlagToEnv] under
    KUBECTL_PLUGINS_GLOBAL_FLAG_. *)
Theorem flagsPluginEnvProvider_Env (c : CommandRef) (w : World) :
  Env (T := cmd.flagsPluginEnvProvider)
      (RunningEnvProvider := cmd.flagsPluginEnvProvider_provider)
      {| cmd.flags_cmd := c |} w
  = ((map (fun flag => FlagToEnv flag "KUBECTL_PLUGINS_GLOBAL_FLAG_") (ref_Flags c),
      None), w).
Proof.
  unfold Env, cmd.flagsPluginEnvProvider_provider, ret. cbn [cmd.flags_cmd].
  now rewrite fold_left_snoc_map.
Qed.

(** X12. The provider of the connection configuration never fails and
    only reads: for every configuration it returns nineteen entries whose
    keys are, in this order, KUBECTL_PLUGINS_REST_CLIENT_CONFIG_ followed
    by HOST, API_PATH, PREFIX, USERNAME, PASSWORD, BEARER_TOKEN,
    IMPERSONATE_USER_NAME, IMPERSONATE_GROUPS (the groups joined by
    commas), INSECURE (true or false), SERVER_NAME, CERT_FILE, KEY_FILE,
    CA_FILE, CERT_DATA, KEY_DATA, CA_DATA, USER_AGENT, TIMEOUT and
    TIMEOUT_MS (the timeout in whole milliseconds). *)
Theorem restClientConfigPluginEnvProvider_entries
    (cfg : restclient.Config) (w : World) :
  cmd.restClientConfigPluginEnvProvider_Env Duration_String
    {| cmd.rest_cfg := cfg |} w
  = ((rest_entries Duration_String cfg, None), w)
  /\ length (rest_entries Duration_String cfg) = 19.
Proof. split; reflexivity. Qed.

End ProvidersMore.

(** ** More on the binder *)

Section BinderMore.

Variable templates_LongDesc : string -> string.
Variable templates_Examples : string -> string.
Variable Duration_String : Z -> string.
Variable DefaultSubCommandRun :
  io.Writer -> CommandRef -> list string -> IO cmdutil.Outcome.
Context {R : Type} {runner_methods : PluginRunner R}.
Variable f : cmdutil.Factory.
Variable runner : R.
Variable in_ : io.Reader.
Variables out errout : io.Writer.

Local Abbreviation bind_plugin p :=
  (cmd.NewCmdForPlugin templates_LongDesc templates_Examples
     Duration_String DefaultSubCommandRun f p runner in_ out errout).

Local Abbreviation closure p :=
  (cmd.NewCmdForPlugin_Run Duration_String DefaultSubCommandRun
     f p runner in_ out errout).

Local Abbreviation bare p :=
  {| cobra.Use := Name p;
     cobra.Short := ShortDesc p;
     cobra.Long := templates_LongDesc (LongDesc p);
     cobra.Example := templates_Examples (Example p);
     cobra.Run := closure p;
     cobra.commands := [] |}.

Lemma all_valid_IsValid (p : Plugin) : all_valid p = true -> IsValid p = true.
Proof. rewrite all_valid_eq. intros H. now apply andb_prop in H as [H _]. Qed.

(** The loop over the children panics at the first child that is not
    bound to a command. *)
Lemma add_all_panics (tree : list Plugin) :
  Forall (fun child =>
            (all_valid child = true ->
             exists x, bind_plugin child = cobra.Returns (Some x))
            /\ (all_valid child = false ->
                bind_plugin child = cobra.Returns None
                \/ bind_plugin child = cobra.Panics)) tree ->
  forallb all_valid tree = false ->
  forall c0, add_all (map (fun q => bind_plugin q) tree) c0 = cobra.Panics.
Proof.
  induction 1 as [|child tree [Hok Hbad] _ IH]; intros Hall c0; [discriminate|].
  cbn [forallb] in Hall. cbn [map add_all].
  destruct (all_valid child) eqn:Hv.
  - destruct (Hok eq_refl) as [x ->]. cbn [cobra.AddCommand]. now apply IH.
  - destruct (Hbad eq_refl) as [-> | ->]; reflexivity.
Qed.

Lemma bind_outcome (p : Plugin) :
  (IsValid p = false -> bind_plugin p = cobra.Returns None)
  /\ (all_valid p = true -> exists c, bind_plugin p = cobra.Returns (Some c))
  /\ (IsValid p = true -> all_valid p = false -> bind_plugin p = cobra.Panics).
Proof.
  induction p as [p IH] using Plugin_tree_ind.
  split; [|split].
  - intros Hv. now rewrite NewCmdForPlugin_eq, Hv.
  - intros Hv.
    destruct (@bind_all_valid templates_LongDesc templates_Examples
                Duration_String DefaultSubCommandRun R runner_methods
                f runner in_ out errout p Hv) as (c & Hc & _).
    now exists c.
  - intros Hv Hall. rewrite NewCmdForPlugin_eq, Hv. cbn [negb].
    rewrite all_valid_eq, Hv in Hall. cbn [andb] in Hall.
    apply add_all_panics; [|exact Hall].
    apply Forall_forall. intros child Hin.
    rewrite Forall_forall in IH. destruct (IH child Hin) as (H1 & H2 & H3).
    split; [exact H2|]. intros Hc.
    destruct (IsValid child) eqn:Hcv; [right; now apply H3 | left; now apply H1].
Qed.

(** X13. Binding has three outcomes.  A descriptor that is not valid
    gives no command (nil).  A tree whose descriptors are all valid gives
    a command.  A valid descriptor with a descendant that is not valid
    gives neither: the nil of that descendant is handed to [AddCommand],
    which dereferences it ([x.parent = c] in cobra), a panic. *)
Theorem NewCmdForPlugin_outcome (p : Plugin) :
  (bind_plugin p = cobra.Returns None <-> IsValid p = false)
  /\ ((exists c, bind_plugin p = cobra.Returns (Some c)) <-> all_valid p = true)
  /\ (bind_plugin p = cobra.Panics <-> IsValid p = true /\ all_valid p = false).
Proof.
  destruct (bind_outcome p) as (Hnone & Hsome & Hpanic).
  assert (Ha : IsValid p = false -> all_valid p = false).
  { intros Hv. now rewrite all_valid_eq, Hv. }
  destruct (IsValid p) eqn:Hv; [destruct (all_valid p) eqn:Hall|].
  - destruct (Hsome eq_refl) as [c Hc]. rewrite Hc.
    split; [|split]; split; intros H; try discriminate; try reflexivity;
      try (now exists c); now destruct H.
  - rewrite (Hpanic eq_refl eq_refl).
    split; [|split]; split; intros H; try discriminate; try reflexivity;
      try (now split); destruct H; discriminate.
  - rewrite (Hnone eq_refl), (Ha eq_refl).
    split; [|split]; split; intros H; try discriminate; try reflexivity;
      try (now split); destruct H; discriminate.
Qed.

(** The loop over the children gives a command whose subcommands are
    the commands bound from the children. *)
Lemma add_all_Bound (tree : list Plugin) :
  Forall (fun child => forall x, bind_plugin child = cobra.Returns (Some x) ->
                                 Bound templates_LongDesc templates_Examples
                                       (fun q => closure q) child x) tree ->
  forall c0 c,
    add_all (map (fun q => bind_plugin q) tree) c0 = cobra.Returns (Some c) ->
    cobra.Use c = cobra.Use c0 /\ cobra.Short c = cobra.Short c0
    /\ cobra.Long c = cobra.Long c0 /\ cobra.Example c = cobra.Example c0
    /\ cobra.Run c = cobra.Run c0
    /\ exists added,
         cobra.commands c = cobra.commands c0 ++ added
         /\ Forall2 (Bound templates_LongDesc templates_Examples
                           (fun q => closure q)) tree added.
Proof.
  induction 1 as [|child tree Hchild _ IH]; intros c0 c Hc.
  - cbn in Hc. injection Hc as <-. repeat split; try reflexivity.
    exists []. split; [now rewrite app_nil_r | constructor].
  - cbn [map add_all] in Hc.
    destruct (cmd.NewCmdForPlugin _ _ _ _ _ child _ _ _ _) as [|[x|]] eqn:Hx;
      cbn [cobra.AddCommand] in Hc; try discriminate.
    apply IH in Hc. cbn [cobra.Use cobra.Short cobra.Long cobra.Example
                         cobra.Run cobra.commands] in Hc.
    destruct Hc as (H1 & H2 & H3 & H4 & H5 & added & Hadd & Hall).
    repeat split; try assumption.
    exists (x :: added). split.
    + now rewrite Hadd, <- app_assoc.
    + constructor; [now apply Hchild | exact Hall].
Qed.

Lemma bind_Bound (p : Plugin) (c : cobra.Command) :
  bind_plugin p = cobra.Returns (Some c) ->
  Bound templates_LongDesc templates_Examples (fun q => closure q) p c.
Proof.
  revert c. induction p as [p IH] using Plugin_tree_ind. intros c Hc.
  rewrite NewCmdForPlugin_eq in Hc.
  destruct (IsValid p); cbn [negb] in Hc; [|discriminate].
  apply (add_all_Bound IH) in Hc.
  cbn [cobra.Use cobra.Short cobra.Long cobra.Example cobra.Run cobra.commands] in Hc.
  destruct Hc as (H1 & H2 & H3 & H4 & H5 & added & Hadd & Hall).
  constructor; try assumption. now rewrite Hadd.
Qed.

(** X14. A command that binding returns is the image of its descriptor
    at every depth: name, short and long text, example and closure are
    those of the descriptor, and the subcommands are the images of the
    children, one for one and in their order; so the command found along
    a path of names runs the plugin found along the same path. *)
Theorem NewCmdForPlugin_Bound (p : Plugin) (c : cobra.Command) :
  bind_plugin p = cobra.Returns (Some c) ->
  Bound templates_LongDesc templates_Examples (fun q => closure q) p c.
Proof. apply bind_Bound. Qed.

(** X15. When the connection configuration does not resolve, invoking a
    bound command with a template ends the process with that error: the
    runner is not called, whatever it is, and the world is untouched. *)
Theorem invocation_without_config (p : Plugin) (c : cobra.Command)
    (cfg : restclient.Config) (e : error) (invoked : CommandRef)
    (args : list string) (w : World) :
  bind_plugin p = cobra.Returns (Some c) ->
  Command p <> "" ->
  cmdutil.ClientConfig f = (cfg, Some e) ->
  cobra.Run c invoked args w = (cmdutil.Exited e, w).
Proof.
  intros Hb Hne Hcfg.
  apply (@bound_command templates_LongDesc templates_Examples Duration_String
           DefaultSubCommandRun R runner_methods f runner in_ out errout)
    in Hb as (_ & _ & ->).
  unfold cmd.NewCmdForPlugin_Run.
  destruct (Command p) as [|a s]; [congruence|].
  cbn [String.length Nat.eqb]. now rewrite Hcfg.
Qed.

End BinderMore.

(** ** An invocation from end to end, with the runner of os/exec *)

Section Invocation.

Variable templates_LongDesc : string -> string.
Variable templates_Examples : string -> string.
Variable Duration_String : Z -> string.
Variable DefaultSubCommandRun :
  io.Writer -> CommandRef -> list string -> IO cmdutil.Outcome.
Variable f : cmdutil.Factory.
Variable r : ExecPluginRunner.
Variable in_ : io.Reader.
Variables out errout : io.Writer.

Local Abbreviation bind_plugin p :=
  (cmd.NewCmdForPlugin templates_LongDesc templates_Examples
     Duration_String DefaultSubCommandRun f p r in_ out errout).

Local Abbreviation context p invoked cfg args :=
  {| In := in_; Out := out; ErrOut := errout; Args := args;
     EnvProvider := iface (providers_of Duration_String f p invoked cfg);
     WorkingDir := Dir p |}.

(** The six providers, when the path of the program and the namespace
    resolve. *)
Lemma providers_succeed (p : Plugin) (invoked : CommandRef)
    (cfg : restclient.Config) (w : World) (caller ns : string) (b : bool) :
  executable w = (caller, None) ->
  cmdutil.DefaultNamespace f = (ns, b, None) ->
  Env (iface (providers_of Duration_String f p invoked cfg)) w
  = ((invocation_env Duration_String w caller ns p invoked cfg, None), w).
Proof.
  intros Hexe Hns.
  change (Multi_loop (providers_of Duration_String f p invoked cfg) [] w
          = (([] ++ invocation_env Duration_String w caller ns p invoked cfg, None), w)).
  apply Multi_loop_succeed. unfold providers_of, invocation_env.
  econstructor.
  { cbn. unfold bind, os.Executable. rewrite Hexe. reflexivity. }
  econstructor; [reflexivity|].
  econstructor; [reflexivity|].
  econstructor; [apply flagsPluginEnvProvider_Env_aux|].
  econstructor.
  { unfold iface, Env, EnvProviderValue_provider, call_Env,
      cmd.factoryAttrsPluginEnvProvider_provider.
    cbn [cmd.attrs_factory]. rewrite Hns. reflexivity. }
  rewrite <- (app_nil_r (rest_entries Duration_String cfg)).
  econstructor; [reflexivity | constructor].
Qed.

(** The six providers, when the path of the program or the namespace
    does not resolve. *)
Lemma providers_fail (p : Plugin) (invoked : CommandRef)
    (cfg : restclient.Config) (w : World) (caller ns : string) (b : bool)
    (e : error) :
  executable w = (caller, Some e)
  \/ (executable w = (caller, None)
      /\ cmdutil.DefaultNamespace f = (ns, b, Some e)) ->
  Env (iface (providers_of Duration_String f p invoked cfg)) w
  = (([], Some e), w).
Proof.
  intros [Hexe | [Hexe Hns]].
  - change (Multi_loop ([] ++ iface mkPluginCallerEnvProvider
                           :: tl (providers_of Duration_String f p invoked cfg)) [] w
            = (([], Some e), w)).
    eapply Multi_loop_first_failure; [constructor|].
    cbn. unfold bind, os.Executable. rewrite Hexe. reflexivity.
  - change (Multi_loop
              ([ iface mkPluginCallerEnvProvider; iface mkOSEnvProvider;
                 iface {| descriptor_Plugin := Some p |};
                 iface (H := cmd.flagsPluginEnvProvider_provider)
                       {| cmd.flags_cmd := invoked |} ]
               ++ iface (H := cmd.factoryAttrsPluginEnvProvider_provider)
                        {| cmd.attrs_factory := f |}
               :: [ iface (H := cmd.restClientConfigPluginEnvProvider_provider
                                  Duration_String) {| cmd.rest_cfg := cfg |} ])
              [] w
            = (([], Some e), w)).
    eapply Multi_loop_first_failure.
    + econstructor.
      { cbn. unfold bind, os.Executable. rewrite Hexe. reflexivity. }
      econstructor; [reflexivity|].
      econstructor; [reflexivity|].
      apply Succeed_one, flagsPluginEnvProvider_Env_aux.
    + unfold iface, Env, EnvProviderValue_provider, call_Env,
        cmd.factoryAttrsPluginEnvProvider_provider.
      cbn [cmd.attrs_factory]. rewrite Hns. reflexivity.
Qed.

Lemma Run_env_failure (plugin : Plugin) (ctx : RunningContext)
    (w w1 : World) (env : list string) (e : error) :
  Env (EnvProvider ctx) w = ((env, Some e), w1) ->
  Run r plugin ctx w = (Some e, w1).
Proof.
  intros HE.
  unfold Run, ExecPluginRunner_runner, ExecPluginRunner_Run, bind, os.ExpandEnv.
  now rewrite HE.
Qed.

(** X16. An invocation from end to end.  For a bound command with a
    template, when the connection configuration, the path of the program
    and the namespace resolve, exactly one child is started: its
    executable and first arguments are the pieces of the expanded
    template, the arguments of the invocation follow, its directory is
    that of the descriptor, its streams are those given to the binder,
    and its environment is, in this order, the entry of the caller, the
    environment of the process, the five entries of the descriptor, one
    entry per flag, the entry of the namespace and the nineteen entries
    of the connection configuration.  The invocation returns when the
    child succeeds and ends the process with the child's error otherwise. *)
Theorem invocation_starts_child (p : Plugin) (c : cobra.Command)
    (cfg : restclient.Config) (invoked : CommandRef) (args : list string)
    (w : World) (caller ns : string) (b : bool) :
  bind_plugin p = cobra.Returns (Some c) ->
  Command p <> "" ->
  cmdutil.ClientConfig f = (cfg, None) ->
  executable w = (caller, None) ->
  cmdutil.DefaultNamespace f = (ns, b, None) ->
  exists (base : string) (fixed : list string),
    strings_Split (os.Expand (Command p) (fun key => os.lookup key (environ w))) " "
    = base :: fixed
    /\ let child :=
         {| exec.Path := base;
            exec.Args := base :: fixed ++ args;
            exec.Env := invocation_env Duration_String w caller ns p invoked cfg;
            exec.Dir := Dir p;
            exec.Stdin := in_; exec.Stdout := out; exec.Stderr := errout |} in
       cobra.Run c invoked args w
       = (outcome_of (child_result w child), after_run child w)
       /\ trace (snd (cobra.Run c invoked args w)) = trace w ++ [EvRun child].
Proof.
  intros Hb Hne Hcfg Hexe Hns.
  apply (@bound_command templates_LongDesc templates_Examples Duration_String
           DefaultSubCommandRun _ _ f r in_ out errout)
    in Hb as (_ & _ & Hrun).
  destruct (strings_Split
              (os.Expand (Command p) (fun key => os.lookup key (environ w))) " ")
    as [|base fixed] eqn:HS.
  { now apply strings_Split_nonempty in HS. }
  exists base, fixed. split; [reflexivity|]. intros child.
  assert (E : cobra.Run c invoked args w
              = (outcome_of (child_result w child), after_run child w)).
  { rewrite Hrun.
    erewrite closure_with_template by eassumption.
    erewrite Run_starts;
      [reflexivity | eapply providers_succeed; eassumption | exact HS]. }
  split; [exact E|]. now rewrite E.
Qed.

(** X17. No partial execution.  When the path of the program does not
    resolve, or the namespace does not, the invocation of a bound command
    ends the process with that error, and no child is started: the world
    is untouched. *)
Theorem invocation_provider_failure (p : Plugin) (c : cobra.Command)
    (cfg : restclient.Config) (invoked : CommandRef) (args : list string)
    (w : World) (caller ns : string) (b : bool) (e : error) :
  bind_plugin p = cobra.Returns (Some c) ->
  Command p <> "" ->
  cmdutil.ClientConfig f = (cfg, None) ->
  executable w = (caller, Some e)
  \/ (executable w = (caller, None)
      /\ cmdutil.DefaultNamespace f = (ns, b, Some e)) ->
  cobra.Run c invoked args w = (cmdutil.Exited e, w).
Proof.
  intros Hb Hne Hcfg Hfail.
  apply (@bound_command templates_LongDesc templates_Examples Duration_String
           DefaultSubCommandRun _ _ f r in_ out errout)
    in Hb as (_ & _ & ->).
  erewrite closure_with_template by eassumption.
  erewrite Run_env_failure; [reflexivity|].
  eapply providers_fail; eassumption.
Qed.

End Invocation.

(** ** The command "plugin" *)

Section PluginCommand.

Variable templates_LongDesc : string -> string.
Variable templates_Examples : string -> string.
Variable Duration_String : Z -> string.
Variable DefaultSubCommandRun :
  io.Writer -> CommandRef -> list string -> IO cmdutil.Outcome.
Variable i18n_T : string -> string.
Variable plugin_long : string.
Context {R : Type} {runner_methods : PluginRunner R}.
Variable f : cmdutil.Factory.
Variable pluginRunner : R.
Variable in_ : io.Reader.
Variables out err : io.Writer.

Local Abbreviation bind_plugin p :=
  (cmd.NewCmdForPlugin templates_LongDesc templates_Examples
     Duration_String DefaultSubCommandRun f p pluginRunner in_ out err).

Local Abbreviation closure p :=
  (cmd.NewCmdForPlugin_Run Duration_String DefaultSubCommandRun
     f p pluginRunner in_ out err).

Local Abbreviation new_cmd_plugin load :=
  (cmd.NewCmdPlugin templates_LongDesc templates_Examples Duration_String
     DefaultSubCommandRun i18n_T plugin_long f load pluginRunner in_ out err).

Local Abbreviation plugin_cmd ps :=
  {| cobra.Use := "plugin NAME";
     cobra.Short := i18n_T "Runs a command-line plugin";
     cobra.Long := plugin_long;
     cobra.Example := "";
     cobra.Run := cmd.NewCmdPlugin_Run DefaultSubCommandRun ps err;
     cobra.commands := [] |}.

Lemma NewCmdPlugin_eq (ps : list Plugin) (loadErr : option error) :
  new_cmd_plugin (ps, loadErr)
  = add_plugins (map (fun q => bind_plugin q) ps) (plugin_cmd ps).
Proof.
  unfold cmd.NewCmdPlugin.
  destruct ps as [|p ps]; [reflexivity|].
  cbn [length Nat.ltb Nat.leb map add_plugins].
  destruct (cmd.NewCmdForPlugin _ _ _ _ _ p _ _ _ _) as [|x]; [reflexivity|].
  destruct (cobra.AddCommand _ x) as [|c1]; [reflexivity|].
  generalize c1. clear.
  induction ps as [|p ps IH]; intros c0; [reflexivity|].
  cbn [map add_plugins].
  destruct (cmd.NewCmdForPlugin _ _ _ _ _ p _ _ _ _) as [|x]; [reflexivity|].
  destruct (cobra.AddCommand c0 x) as [|c1]; [reflexivity|].
  apply IH.
Qed.

Lemma add_plugins_Bound (ps : list Plugin) :
  forallb all_valid ps = true ->
  forall c0, exists c added,
    add_plugins (map (fun q => bind_plugin q) ps) c0 = cobra.Returns c
    /\ cobra.Use c = cobra.Use c0 /\ cobra.Run c = cobra.Run c0
    /\ cobra.commands c = cobra.commands c0 ++ added
    /\ Forall2 (Bound templates_LongDesc templates_Examples
                      (fun q => closure q)) ps added.
Proof.
  induction ps as [|p ps IH]; intros Hall c0.
  - exists c0, []. cbn. rewrite app_nil_r. repeat split. constructor.
  - cbn [forallb] in Hall. apply andb_prop in Hall as [Hp Hps].
    destruct (@bind_all_valid templates_LongDesc templates_Examples
                Duration_String DefaultSubCommandRun R runner_methods
                f pluginRunner in_ out err p Hp) as (x & Hx & _).
    cbn [map add_plugins]. rewrite Hx. cbn [cobra.AddCommand].
    destruct (IH Hps {| cobra.Use := cobra.Use c0; cobra.Short := cobra.Short c0;
                        cobra.Long := cobra.Long c0;
                        cobra.Example := cobra.Example c0;
                        cobra.Run := cobra.Run c0;
                        cobra.commands := cobra.commands c0 ++ [x] |})
      as (c & added & Hc & Huse & Hrun & Hsub & Hb).
    exists c, (x :: added). split; [exact Hc|].
    cbn [cobra.Use cobra.Run cobra.commands] in Huse, Hrun, Hsub.
    split; [exact Huse|]. split; [exact Hrun|]. split.
    + now rewrite Hsub, <- app_assoc.
    + constructor; [|exact Hb]. now apply bind_Bound.
Qed.

Lemma add_plugins_panics (ps : list Plugin) :
  forallb all_valid ps = false ->
  forall c0, add_plugins (map (fun q => bind_plugin q) ps) c0 = cobra.Panics.
Proof.
  induction ps as [|p ps IH]; intros Hall c0; [discriminate|].
  cbn [forallb] in Hall. cbn [map add_plugins].
  destruct (@bind_outcome templates_LongDesc templates_Examples
              Duration_String DefaultSubCommandRun R runner_methods
              f pluginRunner in_ out err p) as (Hnone & Hsome & Hpanic).
  destruct (all_valid p) eqn:Hv.
  - destruct (Hsome eq_refl) as [x ->]. cbn [cobra.AddCommand]. now apply IH.
  - destruct (IsValid p) eqn:Hi.
    + now rewrite (Hpanic eq_refl eq_refl).
    + now rewrite (Hnone eq_refl).
Qed.

(** X18. Without plugins the command "plugin" has no subcommand, and
    invoking it ends the process with "no plugins installed." before any
    help is shown; that the load failed or not makes no difference. *)
Theorem NewCmdPlugin_without_plugins (loadErr : option error) :
  exists c,
    new_cmd_plugin ([], loadErr) = cobra.Returns c
    /\ cobra.Use c = "plugin NAME"
    /\ cobra.commands c = []
    /\ forall invoked args w,
         cobra.Run c invoked args w
         = (cmdutil.Exited "no plugins installed.", w).
Proof.
  eexists. split; [reflexivity|]. repeat split.
Qed.

(** X19. With plugins that are valid at every depth, the command
    "plugin" gets one subcommand for each loaded plugin, in the order of
    the load, each the image of its plugin at every depth; invoking the
    command itself does what [DefaultSubCommandRun] does.  An error of
    the load is ignored. *)
Theorem NewCmdPlugin_with_plugins (ps : list Plugin) (loadErr : option error) :
  ps <> [] ->
  forallb all_valid ps = true ->
  exists c,
    new_cmd_plugin (ps, loadErr) = cobra.Returns c
    /\ cobra.Use c = "plugin NAME"
    /\ Forall2 (Bound templates_LongDesc templates_Examples
                      (fun q => closure q)) ps (cobra.commands c)
    /\ map cobra.Use (cobra.commands c) = map Name ps
    /\ forall invoked args w,
         cobra.Run c invoked args w = DefaultSubCommandRun err invoked args w.
Proof.
  intros Hne Hall. rewrite NewCmdPlugin_eq.
  destruct (add_plugins_Bound ps Hall (plugin_cmd ps))
    as (c & added & Hc & Huse & Hrun & Hsub & Hb).
  cbn [cobra.Use cobra.Run cobra.commands app] in Huse, Hrun, Hsub.
  exists c. split; [exact Hc|]. split; [exact Huse|].
  rewrite Hsub. split; [exact Hb|]. split.
  - clear - Hb. induction Hb as [|p x ps added Hpx _ IH]; [reflexivity|].
    cbn [map]. rewrite IH. f_equal. now destruct Hpx.
  - intros invoked args w. rewrite Hrun. unfold cmd.NewCmdPlugin_Run.
    destruct ps; [congruence | reflexivity].
Qed.

(** X20. A loaded plugin that is not valid at every depth makes
    [NewCmdPlugin] panic: the nil that binding returns for a descriptor
    that is not valid is handed to [AddCommand]. *)
Theorem NewCmdPlugin_panics (ps : list Plugin) (loadErr : option error) :
  forallb all_valid ps = false ->
  new_cmd_plugin (ps, loadErr) = cobra.Panics.
Proof.
  intros Hall. rewrite NewCmdPlugin_eq. now apply add_plugins_panics.
Qed.

End PluginCommand.

(** ** Templates without references, and entries of fields *)

Section TemplatesAndFields.

Variable r : ExecPluginRunner.

Lemma Expand_no_dollar (mapping : string -> string) (s : string) :
  has_byte "$" s = false -> os.Expand s mapping = s.
Proof.
  unfold os.Expand. induction s as [|c s IH]; [reflexivity|].
  cbn [has_byte os.Expand_skip]. intros H.
  apply orb_false_elim in H as [Hc Hs].
  rewrite Hc. cbn [andb]. now rewrite (IH Hs).
Qed.

(** X21. A template that holds no "$" is used as it is written: what
    [Run] starts are the pieces of the template itself, split at the
    spaces, whatever the environment of the process holds. *)
Theorem Run_plain_template (plugin : Plugin) (ctx : RunningContext)
    (w w1 : World) (env : list string) :
  has_byte "$" (Command plugin) = false ->
  Env (EnvProvider ctx) w = ((env, None), w1) ->
  exists (base : string) (fixed : list string),
    strings_Split (Command plugin) " " = base :: fixed
    /\ Run r plugin ctx w
       = (child_result w1 (started base (fixed ++ Args ctx) env ctx),
          after_run (started base (fixed ++ Args ctx) env ctx) w1).
Proof.
  intros Hd HE.
  destruct (strings_Split (Command plugin) " ") as [|base fixed] eqn:HS.
  { now apply strings_Split_nonempty in HS. }
  exists base, fixed. split; [reflexivity|].
  apply Run_starts; [exact HE|]. now rewrite Expand_no_dollar.
Qed.

Lemma flat_app (l1 l2 : list string) :
  flat (l1 ++ l2) = (flat l1 ++ flat l2)%string.
Proof.
  induction l1 as [|s l1 IH]; cbn [app flat]; [reflexivity|].
  now rewrite IH, append_assoc.
Qed.

Lemma append_to_last_flat (runes : list string) (c : ascii) :
  runes <> [] ->
  flat (camelcase.append_to_last runes c) = (flat runes ++ String c "")%string.
Proof.
  induction runes as [|w runes IH]; [congruence|]. intros _.
  destruct runes as [|w' runes].
  - cbn [camelcase.append_to_last flat]. now rewrite !append_nil_r.
  - change (camelcase.append_to_last (w :: w' :: runes) c)
      with (w :: camelcase.append_to_last (w' :: runes) c).
    change (flat (w :: camelcase.append_to_last (w' :: runes) c))
      with (w ++ flat (camelcase.append_to_last (w' :: runes) c))%string.
    rewrite IH by discriminate.
    change (flat (w :: w' :: runes)) with (w ++ flat (w' :: runes))%string.
    now rewrite append_assoc.
Qed.

Lemma class_of_positive (c : ascii) : camelcase.class_of c <> 0.
Proof.
  unfold camelcase.class_of.
  destruct (IsLower c), (IsUpper c), (IsDigit c); discriminate.
Qed.

Lemma split_classes_flat (s : string) : forall runes k,
  (runes = [] -> k = 0) ->
  flat (camelcase.split_classes s runes k) = (flat runes ++ s)%string.
Proof.
  induction s as [|c s IH]; intros runes k Hk.
  - cbn. now rewrite append_nil_r.
  - cbn [camelcase.split_classes].
    destruct (Nat.eqb_spec (camelcase.class_of c) k) as [E|E].
    + assert (Hne : runes <> []).
      { intros ->. apply (@class_of_positive c). rewrite E. now apply Hk. }
      rewrite IH.
      * rewrite append_to_last_flat by exact Hne. now rewrite append_assoc.
      * intros Hnil. exfalso. destruct runes as [|w [|w' runes]];
          [congruence | discriminate | discriminate].
    + rewrite IH.
      * rewrite flat_app. cbn. now rewrite append_assoc.
      * intros Hnil. now destruct runes.
Qed.

Lemma but_last_last (s : string) :
  (camelcase.but_last s ++ camelcase.last_byte s)%string = s.
Proof.
  induction s as [|c s IH]; [reflexivity|].
  destruct s as [|d s]; [reflexivity|].
  change (camelcase.but_last (String c (String d s)))
    with (String c (camelcase.but_last (String d s))).
  change (camelcase.last_byte (String c (String d s)))
    with (camelcase.last_byte (String d s)).
  cbn [append]. now rewrite IH.
Qed.

Lemma upper_to_lower_flat (rest : list string) : forall cur,
  flat (camelcase.upper_to_lower cur rest) = (cur ++ flat rest)%string.
Proof.
  induction rest as [|next rest IH]; intros cur; [reflexivity|].
  cbn [camelcase.upper_to_lower].
  destruct (camelcase.first_byte IsUpper cur && camelcase.first_byte IsLower next).
  - cbn [flat]. fold (flat (camelcase.upper_to_lower
                                        (camelcase.last_byte cur ++ next) rest)).
    rewrite IH, <- !append_assoc, but_last_last. reflexivity.
  - cbn [flat]. fold (flat (camelcase.upper_to_lower next rest)).
    now rewrite IH.
Qed.

Lemma filter_nonempty_flat (l : list string) :
  flat (filter nonempty l) = flat l.
Proof.
  induction l as [|s l IH]; [reflexivity|].
  destruct s as [|c s]; cbn [filter nonempty]; [exact IH|].
  cbn [flat]. fold (flat (filter nonempty l)). fold (flat l).
  now rewrite IH.
Qed.

(** The camel-case splitter loses nothing: its pieces, put back
    together, are the source. *)
Lemma camelcase_Split_flat (s : string) : flat (camelcase.Split s) = s.
Proof.
  unfold camelcase.Split. rewrite filter_nonempty_flat.
  pose proof (@split_classes_flat s [] 0 (fun _ => eq_refl)) as H.
  destruct (camelcase.split_classes s [] 0) as [|w ws]; [exact H|].
  rewrite upper_to_lower_flat. exact H.
Qed.

Lemma all_bytes_flat (P : ascii -> bool) (l : list string) :
  all_bytes P (flat l) = true -> Forall (fun s => all_bytes P s = true) l.
Proof.
  induction l as [|s l IH]; [constructor|].
  cbn [flat]. fold (flat l). rewrite all_bytes_app.
  intros H. apply andb_prop in H as [Hs Hl]. constructor; auto.
Qed.

Lemma all_bytes_Split (P : ascii -> bool) (sep : ascii) (s : string) :
  all_bytes P s = true ->
  Forall (fun t => all_bytes P t = true) (strings_Split s sep).
Proof.
  induction s as [|c s IH]; cbn [all_bytes strings_Split].
  - intros _. now constructor.
  - intros H. apply andb_prop in H as [Hc Hs]. specialize (IH Hs).
    destruct (Ascii.eqb c sep).
    + now constructor.
    + destruct (strings_Split s sep) as [|w ws].
      * constructor; [|constructor]. cbn. now rewrite Hc.
      * inversion IH; subst. constructor; [|assumption].
        cbn. now rewrite Hc.
Qed.

Lemma all_bytes_map_keeps (P : ascii -> bool) (g : ascii -> ascii) (s : string) :
  (forall c, P c = true -> P (g c) = true) ->
  all_bytes P s = true -> all_bytes P (map_bytes g s) = true.
Proof.
  intros Hg. induction s as [|c s IH]; cbn; [reflexivity|].
  intros H. apply andb_prop in H as [Hc Hs]. now rewrite (Hg c Hc), (IH Hs).
Qed.

Lemma upper_byte_keeps_not_eq (c : ascii) :
  negb (Ascii.eqb c "=") = true -> negb (Ascii.eqb (upper_byte c) "=") = true.
Proof. destruct c as [[] [] [] [] [] [] [] []]; vm_compute; congruence. Qed.

(** X22. The entry of a field reads back: when neither the prefix nor
    the name of the field holds "=", the key of the entry is the variable
    name of the field and its value is the text given, whatever it
    holds. *)
Theorem FieldToEnv_reads_back (fieldName fieldValue prefix : string) :
  has_byte "=" prefix = false ->
  has_byte "=" fieldName = false ->
  entry_key (FieldToEnv fieldName fieldValue prefix)
  = FieldToEnvName fieldName prefix
  /\ entry_value (FieldToEnv fieldName fieldValue prefix) = fieldValue.
Proof.
  intros Hp Hn. unfold FieldToEnv. apply entry_key_value.
  rewrite has_byte_all_bytes in Hp, Hn |- *.
  apply negb_false_iff in Hp, Hn. apply negb_false_iff.
  unfold FieldToEnvName. rewrite all_bytes_app, Hp. cbn [andb].
  apply all_bytes_concat; [reflexivity|].
  apply Forall_forall. intros part Hin.
  apply in_map_iff in Hin as (seg & <- & Hseg).
  pose proof (all_bytes_Split _ "."%char _ Hn) as Hsegs.
  rewrite Forall_forall in Hsegs. specialize (Hsegs seg Hseg).
  apply all_bytes_map_keeps; [exact upper_byte_keeps_not_eq|].
  apply all_bytes_concat; [reflexivity|].
  apply all_bytes_flat. now rewrite camelcase_Split_flat.
Qed.

End TemplatesAndFields.

(** ** The further properties at concrete inputs *)

Lemma Multi_Env_failure_is_empty_witness :
  Env (T := MultiRunningEnvProvider)
    [iface mkOSEnvProvider; iface {| descriptor_Plugin := None |}] world0
  = (([], Some "plugin not present to extract env"), world0)
  /\ fst (fst (Env (T := MultiRunningEnvProvider)
                 [iface mkOSEnvProvider; iface {| descriptor_Plugin := None |}]
                 world0)) = [].
Proof.
  split; [reflexivity|].
  apply (@Multi_Env_failure_is_empty
           [iface mkOSEnvProvider; iface {| descriptor_Plugin := None |}]
           world0 _ "plugin not present to extract env" world0).
  reflexivity.
Defined.

Lemma Multi_Env_first_failure_witness :
  Env (T := MultiRunningEnvProvider)
    ([iface mkPluginCallerEnvProvider; iface mkOSEnvProvider]
     ++ iface {| descriptor_Plugin := None |} :: [iface mkEmptyEnvProvider]) world0
  = (([], Some "plugin not present to extract env"), world0).
Proof.
  apply (@Multi_Env_first_failure
           [iface mkPluginCallerEnvProvider; iface mkOSEnvProvider]
           (iface {| descriptor_Plugin := None |}) [iface mkEmptyEnvProvider]
           world0
           (["KUBECTL_PLUGINS_CALLER=/usr/local/bin/kubectl"] ++ ["HOME=/root"])
           world0 []).
  - econstructor; [reflexivity|]. apply Succeed_one. reflexivity.
  - reflexivity.
Defined.

Lemma Multi_Env_all_succeed_witness :
  Env (T := MultiRunningEnvProvider)
    [iface mkPluginCallerEnvProvider; iface mkOSEnvProvider] world0
  = ((["KUBECTL_PLUGINS_CALLER=/usr/local/bin/kubectl"] ++ ["HOME=/root"], None),
     world0).
Proof.
  apply Multi_Env_all_succeed.
  econstructor; [reflexivity|]. apply Succeed_one. reflexivity.
Defined.

Lemma runner_providers_read_only_witness :
  ReadOnly (iface (T := MultiRunningEnvProvider)
              [iface mkPluginCallerEnvProvider; iface mkOSEnvProvider]).
Proof.
  destruct runner_providers_read_only as (Hc & Ho & _ & _ & Hm).
  apply Hm. repeat constructor; assumption.
Defined.

Lemma FlagToEnvName_marker_witness :
  FlagToEnvName "--dry-run" "P_" = FlagToEnvName "dry-run" "P_"
  /\ FlagToEnvName "---x" "P_" = "P__X".
Proof.
  split.
  - apply (proj2 (FlagToEnvName_marker "dry-run" "P_")). reflexivity.
  - apply (proj1 (FlagToEnvName_marker "-x" "P_")). reflexivity.
Defined.

Lemma FlagToEnv_reads_back_witness :
  entry_key (FlagToEnv {| pflag.Name := "selector"; pflag.Value_String := "app=web" |}
                       "KUBECTL_PLUGINS_GLOBAL_FLAG_")
  = "KUBECTL_PLUGINS_GLOBAL_FLAG_SELECTOR"
  /\ entry_value (FlagToEnv {| pflag.Name := "selector"; pflag.Value_String := "app=web" |}
                            "KUBECTL_PLUGINS_GLOBAL_FLAG_")
     = "app=web".
Proof.
  apply (@FlagToEnv_reads_back
           {| pflag.Name := "selector"; pflag.Value_String := "app=web" |}
           "KUBECTL_PLUGINS_GLOBAL_FLAG_"); reflexivity.
Defined.

Lemma NewCmdForPlugin_outcome_witness :
  bind0 broken_plugin = cobra.Panics
  /\ bind0 (plugin_of "" "tail -f" []) = cobra.Returns None
  /\ exists c, bind0 group_plugin = cobra.Returns (Some c).
Proof.
  split; [|split].
  - apply (proj2 (proj2 (@NewCmdForPlugin_outcome (fun s => s) (fun s => s)
                           Duration_String0 DefaultSubCommandRun0 _ _ factory0
                           mkExecPluginRunner 0 1 2 broken_plugin))).
    split; reflexivity.
  - apply (proj1 (@NewCmdForPlugin_outcome (fun s => s) (fun s => s)
                    Duration_String0 DefaultSubCommandRun0 _ _ factory0
                    mkExecPluginRunner 0 1 2 (plugin_of "" "tail -f" []))).
    reflexivity.
  - apply (proj1 (proj2 (@NewCmdForPlugin_outcome (fun s => s) (fun s => s)
                           Duration_String0 DefaultSubCommandRun0 _ _ factory0
                           mkExecPluginRunner 0 1 2 group_plugin))).
    reflexivity.
Defined.

Lemma NewCmdForPlugin_Bound_witness :
  exists c, bind0 group_plugin = cobra.Returns (Some c)
            /\ Bound (fun s => s) (fun s => s) closure0 group_plugin c.
Proof.
  assert (Hb : exists c, bind0 group_plugin = cobra.Returns (Some c))
    by (eexists; reflexivity).
  destruct Hb as [c Hc]. exists c. split; [exact Hc|].
  exact (@NewCmdForPlugin_Bound (fun s => s) (fun s => s) Duration_String0
           DefaultSubCommandRun0 _ _ factory0 mkExecPluginRunner 0 1 2
           group_plugin c Hc).
Defined.

Lemma invocation_without_config_witness :
  exists c,
    cmd.NewCmdForPlugin (fun s => s) (fun s => s) Duration_String0
      DefaultSubCommandRun0 factory_without_config status_plugin
      mkExecPluginRunner 0 1 2 = cobra.Returns (Some c)
    /\ cobra.Run c ref0 [] world0 = (cmdutil.Exited "no configuration", world0).
Proof.
  eexists. split; [reflexivity|].
  apply (@invocation_without_config (fun s => s) (fun s => s) Duration_String0
           DefaultSubCommandRun0 _ _ factory_without_config mkExecPluginRunner
           0 1 2 status_plugin _ config0 "no configuration" ref0 [] world0);
    [reflexivity | discriminate | reflexivity].
Defined.

Lemma invocation_starts_child_witness :
  exists (c : cobra.Command) (base : string) (fixed : list string),
    bind0 status_plugin = cobra.Returns (Some c)
    /\ base :: fixed = ["echo"; "hello"]
    /\ trace (snd (cobra.Run c ref0 ["x"] world0))
       = [EvRun {| exec.Path := base;
                   exec.Args := base :: fixed ++ ["x"];
                   exec.Env := invocation_env Duration_String0 world0
                                 "/usr/local/bin/kubectl" "default"
                                 status_plugin ref0 config0;
                   exec.Dir := "/plugins";
                   exec.Stdin := 0; exec.Stdout := 1; exec.Stderr := 2 |}].
Proof.
  assert (Hb : exists c, bind0 status_plugin = cobra.Returns (Some c))
    by (eexists; reflexivity).
  destruct Hb as [c Hc]. exists c.
  destruct (@invocation_starts_child (fun s => s) (fun s => s) Duration_String0
              DefaultSubCommandRun0 factory0 mkExecPluginRunner 0 1 2
              status_plugin c config0 ref0 ["x"] world0
              "/usr/local/bin/kubectl" "default" false Hc)
    as (base & fixed & HS & _ & Ht);
    [discriminate | reflexivity | reflexivity | reflexivity |].
  exists base, fixed. split; [exact Hc|]. split; [symmetry; exact HS | exact Ht].
Defined.

Lemma invocation_provider_failure_witness :
  exists c,
    cmd.NewCmdForPlugin (fun s => s) (fun s => s) Duration_String0
      DefaultSubCommandRun0 factory_without_namespace status_plugin
      mkExecPluginRunner 0 1 2 = cobra.Returns (Some c)
    /\ cobra.Run c ref0 [] world0 = (cmdutil.Exited "no namespace", world0).
Proof.
  eexists. split; [reflexivity|].
  apply (@invocation_provider_failure (fun s => s) (fun s => s) Duration_String0
           DefaultSubCommandRun0 factory_without_namespace mkExecPluginRunner
           0 1 2 status_plugin _ config0 ref0 [] world0
           "/usr/local/bin/kubectl" "" false "no namespace");
    [reflexivity | discriminate | reflexivity |].
  right. split; reflexivity.
Defined.

Lemma NewCmdPlugin_with_plugins_witness :
  exists c,
    cmd.NewCmdPlugin (fun s => s) (fun s => s) Duration_String0
      DefaultSubCommandRun0 (fun s => s) "Runs a command-line plugin."
      factory0 ([group_plugin; status_plugin], Some "one file was unreadable")
      mkExecPluginRunner 0 1 2 = cobra.Returns c
    /\ map cobra.Use (cobra.commands c) = ["cluster"; "status"].
Proof.
  destruct (@NewCmdPlugin_with_plugins (fun s => s) (fun s => s) Duration_String0
              DefaultSubCommandRun0 (fun s => s) "Runs a command-line plugin."
              _ _ factory0 mkExecPluginRunner 0 1 2
              [group_plugin; status_plugin] (Some "one file was unreadable"))
    as (c & Hc & _ & _ & Hnames & _); [discriminate | reflexivity |].
  exists c. split; [exact Hc | exact Hnames].
Defined.

Lemma NewCmdPlugin_panics_witness :
  cmd.NewCmdPlugin (fun s => s) (fun s => s) Duration_String0
    DefaultSubCommandRun0 (fun s => s) "Runs a command-line plugin."
    factory0 ([status_plugin; plugin_of "" "tail -f" []], None)
    mkExecPluginRunner 0 1 2 = cobra.Panics.
Proof.
  apply (@NewCmdPlugin_panics (fun s => s) (fun s => s) Duration_String0
           DefaultSubCommandRun0 (fun s => s) "Runs a command-line plugin."
           _ _ factory0 mkExecPluginRunner 0 1 2).
  reflexivity.
Defined.

Lemma Run_plain_template_witness :
  exists (base : string) (fixed : list string),
    base :: fixed = ["echo"; "hello"]
    /\ Run mkExecPluginRunner status_plugin
         (ctx_of ["x"] (iface mkOSEnvProvider)) world0
       = (None, after_run (started base (fixed ++ ["x"]) ["HOME=/root"]
                             (ctx_of ["x"] (iface mkOSEnvProvider))) world0).
Proof.
  destruct (@Run_plain_template mkExecPluginRunner status_plugin
              (ctx_of ["x"] (iface mkOSEnvProvider)) world0 world0
              ["HOME=/root"] eq_refl eq_refl)
    as (base & fixed & HS & HR).
  exists base, fixed. split; [symmetry; exact HS | exact HR].
Defined.

Lemma FieldToEnv_reads_back_witness :
  entry_key (FieldToEnv "Impersonate.Groups" "a=b,c"
                        "KUBECTL_PLUGINS_REST_CLIENT_CONFIG_")
  = "KUBECTL_PLUGINS_REST_CLIENT_CONFIG_IMPERSONATE_GROUPS"
  /\ entry_value (FieldToEnv "Impersonate.Groups" "a=b,c"
                             "KUBECTL_PLUGINS_REST_CLIENT_CONFIG_")
     = "a=b,c".
Proof.
  apply (@FieldToEnv_reads_back "Impersonate.Groups" "a=b,c"
           "KUBECTL_PLUGINS_REST_CLIENT_CONFIG_"); reflexivity.
Defined.
